(** * BillScan Pro backend: a shallow embedding of the server source

    The development follows the server source: JavaScript strings are
    sequences of UTF-16 code units, records are objects (finite maps from
    property names to values), the record store is the array
    [billingRecords], and the regular expressions of [extractBillingData]
    are run by a backtracking matcher that tries alternatives in the
    order the ECMAScript matcher does. *)

From Stdlib Require Import String Ascii NArith ZArith QArith Qcanon List Lia.
From stdpp Require Import base option list gmap strings numbers.

Set Default Proof Using "Type".
Set Warnings "-register-all".
Local Open Scope string_scope.
Local Open Scope list_scope.
Local Open Scope nat_scope.

(** ** JavaScript strings *)

(** A code unit is a number below 65536; a string is a list of them. *)
Definition jsstring : Type := list N.

(** An ASCII literal as a JavaScript string. *)
Definition js (s : string) : jsstring :=
  List.map N_of_ascii (list_ascii_of_string s).

Definition LF : N := 10%N.

Module Chars.

Definition between (lo hi c : N) : bool := ((lo <=? c) && (c <=? hi))%N.

(** [\d] *)
Definition is_digit (c : N) : bool := between 48 57 c.

(** [\s], which is also the set [String.prototype.trim] strips:
    WhiteSpace and LineTerminator of ECMAScript. *)
Definition is_space (c : N) : bool :=
  (between 9 13 c || (c =? 32) || (c =? 160) || (c =? 5760)
   || between 8192 8202 c || (c =? 8232) || (c =? 8233) || (c =? 8239)
   || (c =? 8287) || (c =? 12288) || (c =? 65279))%N.

(** [.] without the [s] flag: anything but a line terminator. *)
Definition is_dot (c : N) : bool :=
  negb ((c =? 10) || (c =? 13) || (c =? 8232) || (c =? 8233))%N.

Definition is_upper (c : N) : bool := between 65 90 c.
Definition is_lower (c : N) : bool := between 97 122 c.

Definition to_upper (c : N) : N := if is_lower c then (c - 32)%N else c.
Definition to_lower (c : N) : N := if is_upper c then (c + 32)%N else c.

Definition letter (x : N) : bool := is_upper x || is_lower x.

End Chars.

(** ** Regular expressions *)

Module Regex.
Import Chars.

(** Members of a character class. *)
Inductive atom : Type :=
| Lit (c : N)
| Range (lo hi : N)
| Digit
| Space
| Dot.

Definition cls : Type := list atom.

Definition atom_match (a : atom) (c : N) : bool :=
  match a with
  | Lit x => (x =? c)%N
  | Range lo hi => between lo hi c
  | Digit => is_digit c
  | Space => is_space c
  | Dot => is_dot c
  end.

(** Under the [i] flag (and no [u] flag) a code unit matches a class
    member when both have the same canonical form.  Every literal and
    range of this program is ASCII, and a code unit above 127 never
    canonicalises to one below 128, so only the ASCII letters fold. *)
Definition cls_match (icase : bool) (cl : cls) (c : N) : bool :=
  existsb (fun a =>
    atom_match a c
    || (icase && (atom_match a (to_upper c) || atom_match a (to_lower c))))
    cl.

(** The patterns of this program quantify single characters and
    character classes only, so a quantifier carries a class. *)
Inductive regex : Type :=
| Eps
| Chr (cl : cls)
| Quant (cl : cls) (min : nat) (max : option nat) (greedy : bool)
| Seq (r1 r2 : regex)
| Alt (r1 r2 : regex)
| Group (n : nat) (r : regex)
| Bol
| Eol.

(** A literal word. *)
Fixpoint Word (w : jsstring) : regex :=
  match w with
  | [] => Eps
  | c :: w' => Seq (Chr [Lit c]) (Word w')
  end.

Definition Star (cl : cls) : regex := Quant cl 0 None true.
Definition Plus (cl : cls) : regex := Quant cl 1 None true.
Definition Opt (cl : cls) : regex := Quant cl 0 (Some 1) true.
Definition Rep (cl : cls) (lo hi : nat) : regex := Quant cl lo (Some hi) true.

(** Matcher state: index into the subject, the rest of the subject
    from that index, and the captures recorded so far. *)
Record mstate : Type := MState {
  pos : nat;
  rest : jsstring;
  caps : list (nat * jsstring)
}.

Definition below (n : nat) (max : option nat) : bool :=
  match max with
  | None => true
  | Some m => n <? m
  end.

(** All ways a class can be repeated from here, fewest repetitions
    first; [n] counts the repetitions already taken. *)
Fixpoint repeats (p : N -> bool) (max : option nat) (n : nat)
         (s : jsstring) : list (nat * jsstring) :=
  (n, s) ::
  match s with
  | c :: s' => if p c && below n max then repeats p max (S n) s' else []
  | [] => []
  end.

(** [run icase r st] lists the states in which [r] can end when started
    in [st], in the order in which a backtracking matcher tries them:
    the head is the match JavaScript reports. *)
Fixpoint run (icase : bool) (r : regex) (st : mstate) : list mstate :=
  match r with
  | Eps => [st]
  | Chr cl =>
      match rest st with
      | c :: s' =>
          if cls_match icase cl c then [MState (S (pos st)) s' (caps st)]
          else []
      | [] => []
      end
  | Quant cl min max greedy =>
      let ends :=
        List.filter (fun e => min <=? fst e)
                    (repeats (cls_match icase cl) max 0 (rest st)) in
      List.map (fun e => MState (pos st + fst e) (snd e) (caps st))
               (if greedy then List.rev ends else ends)
  | Seq r1 r2 => List.flat_map (run icase r2) (run icase r1 st)
  | Alt r1 r2 => run icase r1 st ++ run icase r2 st
  | Group n r1 =>
      List.map (fun st' =>
                  MState (pos st') (rest st')
                         ((n, firstn (pos st' - pos st) (rest st)) :: caps st'))
               (run icase r1 st)
  | Bol => if pos st =? 0 then [st] else []
  | Eol => match rest st with [] => [st] | _ :: _ => [] end
  end.

(** The result of [RegExp.prototype.exec]: where the match starts and
    ends, the matched text, and the captures. *)
Record result : Type := Result {
  index : nat;
  last : nat;
  whole : jsstring;
  groups : list (nat * jsstring)
}.

Fixpoint assoc (n : nat) (l : list (nat * jsstring)) : option jsstring :=
  match l with
  | [] => None
  | (m, w) :: l' => if n =? m then Some w else assoc n l'
  end.

(** [match[n]] for a group that took part in the match. *)
Definition group (n : nat) (m : result) : jsstring :=
  default [] (assoc n (groups m)).

(** Try every start index from [p] on, leftmost first. *)
Fixpoint search (icase : bool) (r : regex) (p : nat) (s : jsstring)
  : option result :=
  match run icase r (MState p s []) with
  | st' :: _ =>
      Some (Result p (pos st') (firstn (pos st' - p) s) (caps st'))
  | [] =>
      match s with
      | [] => None
      | _ :: s' => search icase r (S p) s'
      end
  end.

(** [re.exec(text)] with [re.lastIndex = from]. *)
Definition exec_from (icase : bool) (r : regex) (from : nat)
           (text : jsstring) : option result :=
  if length text <? from then None
  else search icase r from (skipn from text).

(** [text.match(re)] for a pattern without the [g] flag. *)
Definition exec (icase : bool) (r : regex) (text : jsstring)
  : option result :=
  search icase r 0 text.

Definition test (icase : bool) (r : regex) (text : jsstring) : bool :=
  bool_decide (is_Some (exec icase r text)).

End Regex.

(** ** JavaScript values and objects *)

(** JSON-like values.  A missing property (JavaScript [undefined]) is a
    failed lookup.  [VNum q] is the number written by the decimal [q];
    [VNaN] is the result of a failed numeric parse. *)
Inductive value : Type :=
| VNull
| VBool (b : bool)
| VNum (q : Qc)
| VNaN
| VStr (s : jsstring)
| VArr (l : list value)
| VObj (o : gmap string value).

Abbreviation obj := (gmap string value).

(** ToBoolean. *)
Definition truthy (v : option value) : bool :=
  match v with
  | None | Some VNull | Some VNaN => false
  | Some (VBool b) => b
  | Some (VNum q) => negb (bool_decide (q = 0%Qc))
  | Some (VStr s) => negb (bool_decide (s = []))
  | Some (VArr _) | Some (VObj _) => true
  end.

(** [v || d] where [d] is a value. *)
Definition or_else (v : option value) (d : value) : value :=
  match v with
  | Some x => if truthy v then x else d
  | None => d
  end.

(** Object spread [{...a, ...b}]: properties of [b] win. *)
Definition spread (a b : obj) : obj := b ∪ a.

Definition num_of_Z (z : Z) : value := VNum (Q2Qc (inject_Z z)).
Definition num_of_nat (n : nat) : value := num_of_Z (Z.of_nat n).

(** ** Number parsing *)

Module Parse.
Import Chars.

Definition digit_val (c : N) : Z := Z.of_N (c - 48).

(** Leading decimal digits of [s]: their value, how many there are,
    and what follows. *)
Fixpoint digits (acc : Z) (n : nat) (s : jsstring) : Z * nat * jsstring :=
  match s with
  | c :: s' =>
      if is_digit c then digits (10 * acc + digit_val c)%Z (S n) s'
      else (acc, n, s)
  | [] => (acc, n, s)
  end.

(** [parseInt(s)] on unsigned decimal text. *)
Definition parseInt (s : jsstring) : value :=
  match digits 0 0 s with
  | (_, O, _) => VNaN
  | (z, S _, _) => num_of_Z z
  end.

(** [parseFloat(s)] on unsigned decimal text without exponent: the
    digits, then optionally a dot and more digits.  The number is kept
    as the exact decimal; JavaScript stores the double nearest to it. *)
Definition parseFloat (s : jsstring) : value :=
  match digits 0 0 s with
  | (z, n, c :: s') =>
      if (c =? 46)%N then
        match digits z 0 s' with
        | (m, k, _) =>
            match n, k with
            | O, O => VNaN
            | _, _ => VNum (Q2Qc (m # Z.to_pos (10 ^ Z.of_nat k)))
            end
        end
      else match n with O => VNaN | S _ => num_of_Z z end
  | (z, O, []) => VNaN
  | (z, S _, []) => num_of_Z z
  end.

End Parse.

(** ** String helpers of the extractor *)

(** [s.split(sep)] for a one-unit separator. *)
Fixpoint split_on (sep : N) (s : jsstring) : list jsstring :=
  match s with
  | [] => [[]]
  | c :: s' =>
      if (c =? sep)%N then [] :: split_on sep s'
      else match split_on sep s' with
           | l :: ls => (c :: l) :: ls
           | [] => [[c]]
           end
  end.

Fixpoint trim_start (s : jsstring) : jsstring :=
  match s with
  | c :: s' => if Chars.is_space c then trim_start s' else s
  | [] => []
  end.

(** [s.trim()] *)
Definition trim (s : jsstring) : jsstring :=
  List.rev (trim_start (List.rev (trim_start s))).

Definition nonempty (s : jsstring) : bool :=
  match s with [] => false | _ :: _ => true end.

(** ** The field extractor *)

Module Patterns.
Import Regex.

Definition ch (a : ascii) : N := N_of_ascii a.

Declare Scope regex_scope.
Delimit Scope regex_scope with re.
Infix "⋅" := Seq (at level 40, left associativity) : regex_scope.
Infix "∣" := Alt (at level 50, left associativity) : regex_scope.
Local Open Scope regex_scope.

(** [\d+\.?\d*].  In the comments below a space separates a star from
    a closing parenthesis that follows it in the source pattern. *)
Definition decimal : regex :=
  Plus [Digit] ⋅ Opt [Lit (ch ".")] ⋅ Star [Digit].

(** [/(?:invoice|inv|bill)[\s#:]*([a-z0-9\-]+)/i] *)
Definition invoicePattern : regex :=
  (Word (js "invoice") ∣ Word (js "inv") ∣ Word (js "bill"))
  ⋅ Star [Space; Lit (ch "#"); Lit (ch ":")]
  ⋅ Group 1 (Plus [Range (ch "a") (ch "z"); Range (ch "0") (ch "9");
                   Lit (ch "-")]).

Definition dateSep : cls := [Lit (ch "/"); Lit (ch "-")].

(** [/(\d{1,2}[\/\-]\d{1,2}[\/\-]\d{2,4})|(\d{4}[\/\-]\d{1,2}[\/\-]\d{1,2})/] *)
Definition datePattern : regex :=
  Group 1 (Rep [Digit] 1 2 ⋅ Chr dateSep ⋅ Rep [Digit] 1 2 ⋅ Chr dateSep
           ⋅ Rep [Digit] 2 4)
  ∣ Group 2 (Rep [Digit] 4 4 ⋅ Chr dateSep ⋅ Rep [Digit] 1 2 ⋅ Chr dateSep
             ⋅ Rep [Digit] 1 2).

Definition amountLabel : regex :=
  Word (js "total") ∣ Word (js "amount") ∣ Word (js "sum").

Definition amountSep : cls := [Space; Lit (ch ":"); Lit (ch "$")].

(** [/(?:total|amount|sum)[\s:$]*(\d+\.?\d* )/i] *)
Definition amountPattern : regex :=
  amountLabel ⋅ Star amountSep ⋅ Group 1 decimal.

(** [/^\d+$/] *)
Definition numericLine : regex := Bol ⋅ Plus [Digit] ⋅ Eol.

(** [/^[\/\-\s]+$/] *)
Definition separatorLine : regex :=
  Bol ⋅ Plus [Lit (ch "/"); Lit (ch "-"); Space] ⋅ Eol.

(** [/(.+?)\s+(\d+)\s*x?\s*\$?(\d+\.?\d* )\s*\$?(\d+\.?\d* )/g] *)
Definition itemPattern : regex :=
  Group 1 (Quant [Dot] 1 None false)
  ⋅ Plus [Space]
  ⋅ Group 2 (Plus [Digit])
  ⋅ Star [Space] ⋅ Opt [Lit (ch "x")] ⋅ Star [Space] ⋅ Opt [Lit (ch "$")]
  ⋅ Group 3 decimal
  ⋅ Star [Space] ⋅ Opt [Lit (ch "$")]
  ⋅ Group 4 decimal.

End Patterns.

(** The object pushed for one match of the item pattern. *)
Definition item_of_match (m : Regex.result) : value :=
  VObj (<["description" := VStr (trim (Regex.group 1 m))]>
        (<["quantity" := Parse.parseInt (Regex.group 2 m)]>
         (<["unitPrice" := Parse.parseFloat (Regex.group 3 m)]>
          (<["totalPrice" := Parse.parseFloat (Regex.group 4 m)]> ∅)))).

(** The [while ((match = itemPattern.exec(text)) !== null)] loop, with
    [lastIndex] threaded through.  [None] stands for a loop that has not
    ended within [fuel] iterations. *)
Fixpoint items_loop (fuel : nat) (text : jsstring) (lastIndex : nat)
         (items : list value) : option (list value) :=
  match fuel with
  | O => None
  | S fuel' =>
      match Regex.exec_from false Patterns.itemPattern lastIndex text with
      | None => Some items
      | Some m =>
          items_loop fuel' text (Regex.last m) (items ++ [item_of_match m])
      end
  end.

Definition meaningful (line : jsstring) : bool :=
  (3 <? length line)
  && negb (Regex.test false Patterns.numericLine line)
  && negb (Regex.test false Patterns.separatorLine line).

Definition extractBillingData (text : jsstring) : option obj :=
  let lines :=
    List.filter nonempty (List.map trim (split_on LF text)) in
  let billingData : obj :=
    <["invoiceNumber" := VStr []]>
    (<["vendor" := VStr []]>
     (<["date" := VStr []]>
      (<["totalAmount" := num_of_Z 0]>
       (<["currency" := VStr (js "USD")]>
        (<["items" := VArr []]>
         (<["rawText" := VStr text]>
          (<["confidence" := VNum (Q2Qc (8 # 10))]> ∅))))))) in
  let billingData :=
    match Regex.exec true Patterns.invoicePattern text with
    | Some m => <["invoiceNumber" := VStr (Regex.group 1 m)]> billingData
    | None => billingData
    end in
  let billingData :=
    match Regex.exec false Patterns.datePattern text with
    | Some m => <["date" := VStr (Regex.whole m)]> billingData
    | None => billingData
    end in
  let billingData :=
    match Regex.exec true Patterns.amountPattern text with
    | Some m =>
        <["totalAmount" := Parse.parseFloat (Regex.group 1 m)]> billingData
    | None => billingData
    end in
  let meaningfulLines := List.filter meaningful lines in
  let billingData :=
    match meaningfulLines with
    | l :: _ => <["vendor" := VStr l]> billingData
    | [] => billingData
    end in
  match items_loop (S (length text)) text 0 [] with
  | Some items => Some (<["items" := VArr items]> billingData)
  | None => None
  end.

(** ** The platform *)

(** Library operations the server calls and that are not part of the
    repository: Node's [path.extname]; [new Date(v).toLocaleDateString()],
    where [None] is the TypeError thrown when [v] is an object that has
    no primitive value (neither [valueOf] nor [toString] gives one); the
    ECMAScript conversion of a value to a number, where the outer [None]
    is the same TypeError and the inner [None] is NaN; and the absolute
    path of the [exports] directory. *)
Class Platform : Type := {
  extname : jsstring -> jsstring;
  toLocaleDateString : option value -> option jsstring;
  toNumber : option value -> option (option Qc);
  exportsDir : jsstring
}.

(** ** Server state *)

(** A worksheet as [XLSX.utils.json_to_sheet] receives it: one list of
    (column, cell) pairs per row. *)
Definition row : Type := list (string * value).
Definition sheet : Type := list row.
Definition workbook : Type := list (string * sheet).

(** The cell of a row under a column heading. *)
Fixpoint cell (column : string) (r : row) : option value :=
  match r with
  | [] => None
  | (c, v) :: r' => if String.eqb c column then Some v else cell column r'
  end.

Inductive call : Type :=
| CallSharp (input output : jsstring)
| CallRecognize (image : jsstring)
| CallRemove (path : jsstring)
| CallWriteFile (book : workbook) (path : jsstring).

(** [billingRecords] is the in-memory array of the server, [files] the
    paths that exist on disk, and [calls] the library calls made so far,
    oldest first. *)
Record world : Type := World {
  billingRecords : list obj;
  files : gset jsstring;
  calls : list call
}.

Definition with_records (f : list obj -> list obj) (w : world) : world :=
  World (f (billingRecords w)) (files w) (calls w).

Definition with_files (f : gset jsstring -> gset jsstring) (w : world) : world :=
  World (billingRecords w) (f (files w)) (calls w).

Definition logged (c : call) (w : world) : world :=
  World (billingRecords w) (files w) (calls w ++ [c]).

(** ** Computations that may throw *)

(** [Hung] is a computation that never gets to its end. *)
Inductive outcome (A : Type) : Type :=
| Returned (a : A)
| Thrown
| Hung.
Arguments Returned {A} a.
Arguments Thrown {A}.
Arguments Hung {A}.

Definition M (A : Type) : Type := world -> outcome A * world.

Definition ret {A} (a : A) : M A := fun w => (Returned a, w).
Definition throw {A} : M A := fun w => (Thrown, w).
Definition hang {A} : M A := fun w => (Hung, w).

Definition bind {A B} (m : M A) (k : A -> M B) : M B :=
  fun w =>
    match m w with
    | (Returned a, w') => k a w'
    | (Thrown, w') => (Thrown, w')
    | (Hung, w') => (Hung, w')
    end.

(** [try { m } catch { h }] *)
Definition try_catch {A} (m : M A) (h : M A) : M A :=
  fun w =>
    match m w with
    | (Thrown, w') => h w'
    | r => r
    end.

Definition update (f : world -> world) : M unit := fun w => (Returned tt, f w).
Definition gets {A} (f : world -> A) : M A := fun w => (Returned (f w), w).

Declare Scope js_scope.
Delimit Scope js_scope with js.
Notation "'let*' x ':=' m 'in' k" := (bind m (fun x => k))
  (at level 10, x pattern, m at level 100, k at level 200) : js_scope.
Notation "m ';;;' k" := (bind m (fun _ => k))
  (at level 100, k at level 200, right associativity) : js_scope.

(** ** Record store helpers *)

(** [arr.findIndex(p)]; [None] is [-1]. *)
Fixpoint findIndex (p : obj -> bool) (l : list obj) : option nat :=
  match l with
  | [] => None
  | r :: l' => if p r then Some 0 else S <$> findIndex p l'
  end.

(** [r.field === "text"] *)
Definition field_is (field : string) (text : jsstring) (r : obj) : bool :=
  match r !! field with
  | Some (VStr s) => bool_decide (s = text)
  | _ => false
  end.

Definition has_id (id : jsstring) : obj -> bool := field_is "id" id.
Definition has_status (s : string) : obj -> bool := field_is "status" (js s).

(** [s.replace(pat, rep)] for a string pattern: the first occurrence. *)
Fixpoint starts_with (pat s : jsstring) : bool :=
  match pat, s with
  | [], _ => true
  | _ :: _, [] => false
  | a :: pat', b :: s' => (a =? b)%N && starts_with pat' s'
  end.

Fixpoint replace_first (pat rep s : jsstring) : jsstring :=
  if starts_with pat s then rep ++ skipn (length pat) s
  else match s with
       | [] => []
       | c :: s' => c :: replace_first pat rep s'
       end.

(** ** The processing pipeline *)

(** What the libraries do during one run of [processImageAsync]: whether
    [sharp] writes its output or rejects (possibly after creating the
    file), what [Tesseract.recognize] resolves to, whether
    [fs.removeSync] throws, and the clock readings of the two
    [new Date().toISOString()] calls. *)
Inductive sharp_outcome : Type :=
| SharpOk
| SharpThrows (wrote : bool).

Inductive ocr_outcome : Type :=
| OcrOk (text : jsstring) (confidence : Qc)
| OcrThrows.

Record run_env : Type := RunEnv {
  sharp_result : sharp_outcome;
  ocr_result : ocr_outcome;
  remove_throws : bool;
  completed_at : jsstring;
  failed_at : jsstring
}.

Section Server.
Context `{Platform}.
Local Open Scope js_scope.

(** [imagePath.replace(path.extname(imagePath), "_processed.png")] *)
Definition outputPath (imagePath : jsstring) : jsstring :=
  replace_first (extname imagePath) (js "_processed.png") imagePath.

Definition preprocessImage (env : run_env) (imagePath : jsstring)
  : M jsstring :=
  let out := outputPath imagePath in
  update (logged (CallSharp imagePath out));;;
  match sharp_result env with
  | SharpOk => update (with_files (fun fs => {[out]} ∪ fs));;; ret out
  | SharpThrows wrote =>
      update (with_files (fun fs => if wrote then {[out]} ∪ fs else fs));;;
      throw
  end.

Definition recognize (env : run_env) (image : jsstring)
  : M (jsstring * Qc) :=
  update (logged (CallRecognize image));;;
  match ocr_result env with
  | OcrOk text confidence => ret (text, confidence)
  | OcrThrows => throw
  end.

Definition existsSync (path : jsstring) : M bool :=
  gets (fun w => bool_decide (path ∈ files w)).

Definition removeSync (env : run_env) (path : jsstring) : M unit :=
  update (logged (CallRemove path));;;
  if remove_throws env then throw
  else update (with_files (fun fs => fs ∖ {[path]})).

(** A run of the extractor inside the pipeline. *)
Definition extract (text : jsstring) : M obj :=
  match extractBillingData text with
  | Some billingData => ret billingData
  | None => hang
  end.

(** The record written on success:
    [{...old, ...billingData, status, extractedAt, rawText}]. *)
Definition completed_record (old billingData : obj) (now text : jsstring)
  : obj :=
  <["rawText" := VStr text]>
  (<["extractedAt" := VStr now]>
   (<["status" := VStr (js "completed")]> (spread old billingData))).

(** The two assignments of the [catch] block. *)
Definition failed_record (old : obj) (now : jsstring) : obj :=
  <["extractedAt" := VStr now]> (<["status" := VStr (js "error")]> old).

(** [const recordIndex = billingRecords.findIndex((r) => r.id === recordId);
    if (recordIndex !== -1) billingRecords[recordIndex] = f(billingRecords[recordIndex])] *)
Definition store_update (recordId : jsstring) (f : obj -> obj)
           (recs : list obj) : list obj :=
  match findIndex (has_id recordId) recs with
  | Some recordIndex => alter f recordIndex recs
  | None => recs
  end.

Definition update_record (recordId : jsstring) (f : obj -> obj) : M unit :=
  update (with_records (store_update recordId f)).

Definition processImageAsync (env : run_env) (recordId imagePath : jsstring)
  : M unit :=
  try_catch
    (let* processedImagePath := preprocessImage env imagePath in
     let* (text, confidence) := recognize env processedImagePath in
     let* billingData := extract text in
     let billingData :=
       <["confidence" := VNum (confidence / Q2Qc 100)%Qc]> billingData in
     update_record recordId (fun old =>
       completed_record old billingData (completed_at env) text);;;
     let* present := existsSync processedImagePath in
     if present then removeSync env processedImagePath else ret tt)
    (update_record recordId (fun old => failed_record old (failed_at env))).

(** ** Request handlers *)

Inductive response : Type :=
| Json (code : nat) (body : value)
| Download (filepath filename : jsstring).

Definition error_body (message : string) : value :=
  VObj {["error" := VStr (js message)]}.

(** [req.file] as multer leaves it. *)
Record upload_file : Type := UploadFile {
  originalname : jsstring;
  path : jsstring
}.

(** The record pushed by the upload handler. *)
Definition initial_record (imageId : jsstring) (file : upload_file)
           (now : jsstring) : obj :=
  <["id" := VStr imageId]>
  (<["originalFilename" := VStr (originalname file)]>
   (<["imagePath" := VStr (path file)]>
    (<["status" := VStr (js "processing")]>
     (<["uploadedAt" := VStr now]>
      (<["extractedAt" := VNull]>
       (<["rawText" := VNull]>
        (<["invoiceNumber" := VNull]>
         (<["vendor" := VNull]>
          (<["date" := VNull]>
           (<["totalAmount" := VNull]>
            (<["currency" := VStr (js "USD")]>
             (<["items" := VArr []]>
              (<["confidence" := num_of_Z 0]> ∅))))))))))))).

(** [POST /api/upload], up to the response; [imageId] is the fresh
    [uuidv4()].  The handler then starts [processImageAsync imageId
    (path file)], which runs after the response. *)
Definition upload (file : option upload_file) (imageId now : jsstring)
           (w : world) : response * world :=
  match file with
  | None => (Json 400 (error_body "No image file provided"), w)
  | Some f =>
      (Json 200
         (VObj (<["id" := VStr imageId]>
                (<["status" := VStr (js "processing")]>
                 (<["message" := VStr (js
                     "Image uploaded successfully. Processing started.")]>
                  ∅)))),
       with_records (fun recs => recs ++ [initial_record imageId f now]) w)
  end.

(** [GET /api/records/:id] *)
Definition getRecord (id : jsstring) (w : world) : response :=
  match List.find (has_id id) (billingRecords w) with
  | Some record => Json 200 (VObj record)
  | None => Json 404 (error_body "Record not found")
  end.

(** [PUT /api/records/:id] *)
Definition putRecord (id : jsstring) (body : obj) (now : jsstring)
           (w : world) : response * world :=
  match findIndex (has_id id) (billingRecords w) with
  | None => (Json 404 (error_body "Record not found"), w)
  | Some recordIndex =>
      let w' :=
        with_records
          (alter (fun old => <["updatedAt" := VStr now]> (spread old body))
                 recordIndex) w in
      (Json 200 (VObj (default ∅ (billingRecords w' !! recordIndex))), w')
  end.

(** ** Export *)

Definition NA : value := VStr (js "N/A").

(** The object built for one record of the summary sheet; [None] when
    [new Date(record.extractedAt)] throws. *)
Definition summary_row (record : obj) : option row :=
  processed ← toLocaleDateString (record !! "extractedAt");
  Some [("Invoice Number", or_else (record !! "invoiceNumber") NA);
        ("Vendor", or_else (record !! "vendor") NA);
        ("Date", or_else (record !! "date") NA);
        ("Total Amount", or_else (record !! "totalAmount") (num_of_Z 0));
        ("Currency", or_else (record !! "currency") (VStr (js "USD")));
        ("Status", or_else (record !! "status") (VStr (js "completed")));
        ("Processed Date", VStr processed)].

(** [item.key]; [None] is the TypeError of reading a property of
    [null]. *)
Definition member (item : value) (key : string) : option (option value) :=
  match item with
  | VNull => None
  | VObj o => Some (o !! key)
  | _ => Some None
  end.

Definition item_row (record : obj) (item : value) : option row :=
  description ← member item "description";
  quantity ← member item "quantity";
  unitPrice ← member item "unitPrice";
  totalPrice ← member item "totalPrice";
  Some [("Invoice Number", or_else (record !! "invoiceNumber") NA);
        ("Vendor", or_else (record !! "vendor") NA);
        ("Item Description", or_else description NA);
        ("Quantity", or_else quantity (num_of_Z 0));
        ("Unit Price", or_else unitPrice (num_of_Z 0));
        ("Total Price", or_else totalPrice (num_of_Z 0));
        ("Invoice Date", or_else (record !! "date") NA)].

(** The row pushed for an invoice without line items. *)
Definition no_items_row (record : obj) : row :=
  [("Invoice Number", or_else (record !! "invoiceNumber") NA);
   ("Vendor", or_else (record !! "vendor") NA);
   ("Item Description", VStr (js "No items extracted"));
   ("Quantity", num_of_Z 0);
   ("Unit Price", num_of_Z 0);
   ("Total Price", or_else (record !! "totalAmount") (num_of_Z 0));
   ("Invoice Date", or_else (record !! "date") NA)].

(** [v > 0]; [None] when the conversion of [v] throws. *)
Definition gt_zero (v : option value) : option bool :=
  match toNumber v with
  | Some (Some q) => Some (bool_decide (0 < q)%Qc)
  | Some None => Some false
  | None => None
  end.

(** The rows one record adds to [detailedData]; [None] when the test
    or the body of the [forEach] callback throws.
    [record.items && record.items.length > 0] holds for a non-empty
    array, for a non-empty string and for an object whose [length] is
    positive; the latter two have no callable [forEach].  For an object
    the comparison itself throws when [length] has no primitive value. *)
Definition record_rows (record : obj) : option (list row) :=
  match record !! "items" with
  | Some (VArr (item :: items)) => mapM (item_row record) (item :: items)
  | Some (VStr (_ :: _)) => None
  | Some (VObj o) =>
      match gt_zero (o !! "length") with
      | Some false => Some [no_items_row record]
      | Some true | None => None
      end
  | _ => Some [no_items_row record]
  end.

(** [records.forEach(...)] pushing onto [detailedData]. *)
Fixpoint detailed_rows (records : list obj) (detailedData : list row)
  : option (list row) :=
  match records with
  | [] => Some detailedData
  | record :: records' =>
      match record_rows record with
      | Some rows => detailed_rows records' (detailedData ++ rows)
      | None => None
      end
  end.

(** Clock readings and the behaviour of the libraries during one
    export: [new Date().toISOString()], [Date.now()] in decimal, whether
    [XLSX.writeFile] throws, whether it has created the file when it
    throws, and whether [res.download] reports an error to its
    callback. *)
Record export_env : Type := ExportEnv {
  iso_now : jsstring;
  millis_now : jsstring;
  write_throws : bool;
  partial_write : bool;
  download_fails : bool
}.

Definition export_filename (env : export_env) : jsstring :=
  js "billing_export_"
  ++ List.hd [] (split_on (Patterns.ch "T") (iso_now env))
  ++ js "_" ++ millis_now env ++ js ".xlsx".

Definition generateExcelFile (env : export_env) (records : list obj)
  : M (jsstring * jsstring) :=
  match mapM summary_row records with
  | None => throw
  | Some summaryData =>
      match detailed_rows records [] with
      | None => throw
      | Some detailedData =>
          let book :=
            [("Summary", summaryData); ("Line Items", detailedData)] in
          let filename := export_filename env in
          let filepath := exportsDir ++ js "/" ++ filename in
          update (logged (CallWriteFile book filepath));;;
          if write_throws env then
            update (with_files (fun fs =>
              if partial_write env then {[filepath]} ∪ fs else fs));;;
            throw
          else
            update (with_files (fun fs => {[filepath]} ∪ fs));;;
            ret (filename, filepath)
      end
  end.

(** [POST /api/export], up to the response.  When [res.download]
    reports an error, its callback answers 500 "Failed to download
    file"; the written file is on disk either way. *)
Definition exportRecords (env : export_env) (w : world) : response * world :=
  let completedRecords :=
    List.filter (has_status "completed") (billingRecords w) in
  if length completedRecords =? 0 then
    (Json 400 (error_body "No completed records to export"), w)
  else
    match generateExcelFile env completedRecords w with
    | (Returned (filename, filepath), w') =>
        if download_fails env then
          (Json 500 (error_body "Failed to download file"), w')
        else (Download filepath filename, w')
    | (_, w') => (Json 500 (error_body "Failed to export data"), w')
    end.

(** [GET /api/export/status] *)
Definition exportStatus (w : world) : response :=
  let count s := length (List.filter (has_status s) (billingRecords w)) in
  Json 200
    (VObj (<["total" := num_of_nat (length (billingRecords w))]>
           (<["completed" := num_of_nat (count "completed")]>
            (<["processing" := num_of_nat (count "processing")]>
             (<["error" := num_of_nat (count "error")]>
              (<["canExport" := VBool (0 <? count "completed")]> ∅)))))).

(** ** Reachable states *)

(** One public operation; [allowed] says which request bodies
    [PUT /api/records/:id] is called with. *)
Inductive step (allowed : obj -> Prop) : world -> world -> Prop :=
| step_upload file imageId now w :
    step allowed w (upload file imageId now w).2
| step_process env recordId imagePath w :
    step allowed w (processImageAsync env recordId imagePath w).2
| step_put id body now w :
    allowed body ->
    step allowed w (putRecord id body now w).2
| step_export env w :
    step allowed w (exportRecords env w).2.

Definition reachable (allowed : obj -> Prop) (w : world) : Prop :=
  ∃ w0, billingRecords w0 = [] ∧ rtc (step allowed) w0 w.

End Server.

(** ** Specification vocabulary *)

Module Spec.
Import Chars.

(** The words a pattern can match, read off the pattern; anchors
    contribute the empty word. *)
Fixpoint lang (icase : bool) (r : Regex.regex) (w : jsstring) : Prop :=
  match r with
  | Regex.Eps | Regex.Bol | Regex.Eol => w = []
  | Regex.Chr cl => ∃ c, w = [c] ∧ Regex.cls_match icase cl c = true
  | Regex.Quant cl min _ _ =>
      min ≤ length w ∧ forallb (Regex.cls_match icase cl) w = true
  | Regex.Seq r1 r2 =>
      ∃ w1 w2, w = w1 ++ w2 ∧ lang icase r1 w1 ∧ lang icase r2 w2
  | Regex.Alt r1 r2 => lang icase r1 w ∨ lang icase r2 w
  | Regex.Group _ r1 => lang icase r1 w
  end.

(** One of the labels [total], [amount], [sum], in any letter case. *)
Definition is_total_label (w : jsstring) : Prop :=
  List.map to_lower w = js "total"
  ∨ List.map to_lower w = js "amount"
  ∨ List.map to_lower w = js "sum".

(** What may stand between the label and the number: white space,
    a colon, a dollar sign. *)
Definition is_amount_sep (c : N) : bool :=
  is_space c || (c =? 58)%N || (c =? 36)%N.

(** A total label followed by a decimal number occurs in [text]. *)
Definition total_occurs (text : jsstring) : Prop :=
  ∃ pre label seps d post,
    text = pre ++ label ++ seps ++ d :: post
    ∧ is_total_label label
    ∧ forallb is_amount_sep seps = true
    ∧ is_digit d = true.

(** The total-amount field is empty: missing, [null] or the empty
    string, and in particular not a number. *)
Definition empty_field (v : option value) : Prop :=
  v = None ∨ v = Some VNull ∨ v = Some (VStr []).

Definition all_of (p : N -> bool) (line : jsstring) : bool :=
  nonempty line && forallb p line.

(** ASCII punctuation. *)
Definition is_punct (c : N) : bool :=
  between 33 47 c || between 58 64 c || between 91 96 c
  || between 123 126 c.

(** Non-trivial in the words of the specification: longer than three,
    not purely numeric, not purely punctuation or white space. *)
Definition nontrivial (line : jsstring) : bool :=
  (3 <? length line)
  && negb (all_of is_digit line)
  && negb (all_of (fun c => is_punct c || is_space c) line).

(** Non-trivial as the extractor has it: longer than three, not purely
    numeric, not made of slashes, hyphens and white space only. *)
Definition is_date_sep (c : N) : bool :=
  (c =? 47)%N || (c =? 45)%N || is_space c.

Definition meaningful_line (line : jsstring) : bool :=
  (3 <? length line)
  && negb (all_of is_digit line)
  && negb (all_of is_date_sep line).

(** The first (trimmed) line of [text] that satisfies [p], or the
    empty string. *)
Definition first_line (p : jsstring -> bool) (text : jsstring) : jsstring :=
  default [] (List.find p (List.map trim (split_on LF text))).

(** The invariant linking [extractedAt] and [status]. *)
Definition extracted_set (r : obj) : Prop :=
  ∃ v, r !! "extractedAt" = Some v ∧ v ≠ VNull.

Definition is_processing (r : obj) : Prop :=
  r !! "status" = Some (VStr (js "processing")).

Definition extracted_iff_done (r : obj) : Prop :=
  extracted_set r ↔ ¬ is_processing r.

(** Request bodies that name neither [status] nor [extractedAt]. *)
Definition keeps_state (body : obj) : Prop :=
  body !! "status" = None ∧ body !! "extractedAt" = None.

Definition any_body (body : obj) : Prop := True.

End Spec.

(** ** A platform to run examples on *)

(** A platform for the concrete runs: [extname] takes the text from
    the last dot on, a date given as a string is shown as stored and an
    absent one as "Invalid Date", only numbers convert to numbers, and
    an object with a [toString] property (which JSON cannot make
    callable) has no primitive value. *)
Fixpoint last_dot (s : jsstring) : option jsstring :=
  match s with
  | [] => None
  | c :: s' =>
      match last_dot s' with
      | Some e => Some e
      | None => if (c =? 46)%N then Some s else None
      end
  end.

Definition sample_platform : Platform := {|
  extname := fun p => default [] (last_dot p);
  toLocaleDateString := fun v =>
    match v with
    | Some (VStr s) => Some s
    | Some (VObj o) =>
        match o !! "toString" with
        | Some _ => None
        | None => Some (js "Invalid Date")
        end
    | _ => Some (js "Invalid Date")
    end;
  toNumber := fun v =>
    match v with
    | Some (VNum q) => Some (Some q)
    | Some (VObj o) =>
        match o !! "toString" with
        | Some _ => None
        | None => Some None
        end
    | _ => Some None
    end;
  exportsDir := js "/srv/exports"
|}.

(** ** Concrete inputs *)

(** The text of the round-trip property: the invoice line, the date
    and the total line, one per line. *)
Definition sample_invoice : jsstring :=
  js "Invoice #INV-2024-099" ++ [LF] ++ js "2024-03-01" ++ [LF]
  ++ js "Total: $123.45".

Definition sample_file : upload_file :=
  UploadFile (js "bill.png") (js "/srv/uploads/7-bill.png").

Definition sample_id : jsstring := js "id-1".

Definition empty_world : world := World [] ∅ [].

Definition upload_time : jsstring := js "2024-03-01T10:00:00.000Z".
Definition edit_time : jsstring := js "2024-03-01T10:00:05.000Z".

(** The store after one upload. *)
Definition uploaded_world : world :=
  (upload (Some sample_file) sample_id upload_time empty_world).2.

Definition uploaded_record : obj :=
  initial_record sample_id sample_file upload_time.

(** A request body that sets [status] and [id]. *)
Definition overwriting_body : obj :=
  <["status" := VStr (js "completed")]> {["id" := VStr (js "id-2")]}.

(** The store after the upload and one update with that body. *)
Definition edited_world : world :=
  (putRecord sample_id overwriting_body edit_time uploaded_world).2.

Definition edited_record : obj :=
  <["updatedAt" := VStr edit_time]> (spread uploaded_record overwriting_body).

Definition vendor_body : obj := {["vendor" := VStr (js "ACME Corp")]}.

(** A request body that only renames the record. *)
Definition renaming_body : obj := {["id" := VStr (js "id-2")]}.

(** The store after the upload and one update with that body, sent
    while the run for the upload is still in flight. *)
Definition renamed_world : world :=
  (putRecord sample_id renaming_body edit_time uploaded_world).2.

Definition renamed_record : obj :=
  <["updatedAt" := VStr edit_time]> (spread uploaded_record renaming_body).

(** A second upload of the same file, under another id. *)
Definition second_id : jsstring := js "id-2".
Definition second_time : jsstring := js "2024-03-01T10:00:03.000Z".

Definition second_record : obj :=
  initial_record second_id sample_file second_time.

Definition two_uploads_world : world :=
  (upload (Some sample_file) second_id second_time uploaded_world).2.

(** A run in which the OCR engine fails. *)
Definition ocr_failure : run_env :=
  RunEnv SharpOk OcrThrows false (js "2024-03-01T10:00:09.000Z")
         (js "2024-03-01T10:00:08.000Z").

(** A completed record without line items and with a total. *)
Definition plain_record : obj :=
  <["items" := VArr []]>
  (<["status" := VStr (js "completed")]>
   (<["totalAmount" := VNum (Q2Qc 42.5)]> ∅)).

(** The row of that record in the summary sheet. *)
Definition plain_summary : row :=
  [("Invoice Number", VStr (js "N/A"));
   ("Vendor", VStr (js "N/A"));
   ("Date", VStr (js "N/A"));
   ("Total Amount", VNum (Q2Qc 42.5));
   ("Currency", VStr (js "USD"));
   ("Status", VStr (js "completed"));
   ("Processed Date", VStr (js "Invalid Date"))].

Definition export_at_noon : export_env :=
  ExportEnv (js "2024-03-01T12:00:00.000Z") (js "1709294400000") false false
            false.

(** An export at the same time whose download fails after the workbook
    was written. *)
Definition failed_download : export_env :=
  ExportEnv (js "2024-03-01T12:00:00.000Z") (js "1709294400000") false false
            true.



(** ** Further vocabulary *)

(** [GET /api/records]: the properties copied into each entry of the
    list; a property the record lacks is left out of the JSON. *)
Definition listed_keys : list string :=
  ["id"; "invoiceNumber"; "vendor"; "date"; "totalAmount"; "currency";
   "status"; "extractedAt"; "confidence"].

Definition listed (record : obj) : obj :=
  <["items" := or_else (record !! "items") (VArr [])]>
  (filter (fun kv => kv.1 ∈ listed_keys) record).

Definition getRecords (w : world) : response :=
  Json 200 (VArr (List.map (fun record => VObj (listed record))
                           (billingRecords w))).

(** [u] occurs in [s]. *)
Fixpoint contains (u s : jsstring) : bool :=
  starts_with u s
  || match s with
     | [] => false
     | _ :: s' => contains u s'
     end.

(** The words matched by the capturing group [n] of a pattern. *)
Fixpoint group_lang (icase : bool) (r : Regex.regex) (n : nat)
         (w : jsstring) : Prop :=
  match r with
  | Regex.Seq r1 r2 | Regex.Alt r1 r2 =>
      group_lang icase r1 n w ∨ group_lang icase r2 n w
  | Regex.Group m r1 =>
      (m = n ∧ Spec.lang icase r1 w) ∨ group_lang icase r1 n w
  | _ => False
  end.

(** The capturing group [n] takes part in every match of the pattern. *)
Fixpoint sets_group (r : Regex.regex) (n : nat) : bool :=
  match r with
  | Regex.Seq r1 r2 => sets_group r1 n || sets_group r2 n
  | Regex.Alt r1 r2 => sets_group r1 n && sets_group r2 n
  | Regex.Group m r1 => (m =? n) || sets_group r1 n
  | _ => false
  end.

(** A number that is not negative. *)
Definition is_amount (v : option value) : Prop :=
  ∃ q, v = Some (VNum q) ∧ (0 <= q)%Qc.

(** One of the three statuses. *)
Definition known_status (r : obj) : Prop :=
  r !! "status" = Some (VStr (js "processing"))
  ∨ r !! "status" = Some (VStr (js "completed"))
  ∨ r !! "status" = Some (VStr (js "error")).

(** Request bodies that do not name [status]. *)
Definition keeps_status (body : obj) : Prop := body !! "status" = None.

(** The object the extractor returns, by its eight properties. *)
Definition billing_object (invoiceNumber vendor date : jsstring)
           (totalAmount : value) (items : list value) (text : jsstring)
  : obj :=
  <["invoiceNumber" := VStr invoiceNumber]>
  (<["vendor" := VStr vendor]>
   (<["date" := VStr date]>
    (<["totalAmount" := totalAmount]>
     (<["currency" := VStr (js "USD")]>
      (<["items" := VArr items]>
       (<["rawText" := VStr text]>
        (<["confidence" := VNum (Q2Qc (8 # 10))]> ∅))))))).

(** A line item as the extractor builds it: a description and three
    numbers that are not negative. *)
Definition is_line_item (v : value) : Prop :=
  ∃ o description,
    v = VObj o
    ∧ o !! "description" = Some (VStr description)
    ∧ is_amount (o !! "quantity")
    ∧ is_amount (o !! "unitPrice")
    ∧ is_amount (o !! "totalPrice").

(** ASCII letter, digit or hyphen. *)
Definition invoice_char (c : N) : bool :=
  Chars.is_lower c || Chars.is_upper c || Chars.is_digit c || (c =? 45)%N.

(** Digit, slash or hyphen. *)
Definition date_char (c : N) : bool :=
  Chars.is_digit c || (c =? 47)%N || (c =? 45)%N.

(** The words of the upload filter, [/jpeg|jpg|png|webp|bmp|tiff/]. *)
Definition allowed_words : list jsstring :=
  [js "jpeg"; js "jpg"; js "png"; js "webp"; js "bmp"; js "tiff"].

Definition allowedTypes : Regex.regex :=
  Regex.Alt (Regex.Alt (Regex.Alt (Regex.Alt (Regex.Alt
    (Regex.Word (js "jpeg")) (Regex.Word (js "jpg")))
    (Regex.Word (js "png"))) (Regex.Word (js "webp")))
    (Regex.Word (js "bmp"))) (Regex.Word (js "tiff")).

(** The [fileFilter] of the multer configuration: [true] accepts the
    file, [false] rejects it with "Only image files are allowed".
    [toLowerCase] is [String.prototype.toLowerCase]. *)
Definition fileFilter `{Platform} (toLowerCase : jsstring -> jsstring)
           (originalname mimetype : jsstring) : bool :=
  let extname_ok :=
    Regex.test false allowedTypes (toLowerCase (extname originalname)) in
  let mimetype_ok := Regex.test false allowedTypes mimetype in
  mimetype_ok && extname_ok.

(** A store holding one completed record without line items. *)
Definition exported_world : world := World [plain_record] ∅ [].


(** A completed record whose only line item is null. *)
Definition broken_record : obj :=
  <["items" := VArr [VNull]]> {["status" := VStr (js "completed")]}.


(** A store in which the uploaded original is on disk. *)
Definition stored_world : world := World [] {[path sample_file]} [].

(** A run in which every stage and the clean-up succeed. *)
Definition ocr_success : run_env :=
  RunEnv SharpOk (OcrOk sample_invoice (Q2Qc 91)) false
         (js "2024-03-01T10:00:09.000Z") (js "2024-03-01T10:00:08.000Z").

(** * Properties *)

(** ** The matcher *)

Module RegexFacts.
Import Regex Spec.

Lemma repeats_sound p max n s k s' :
  In (k, s') (repeats p max n s) ->
  ∃ w, s = w ++ s' ∧ forallb p w = true ∧ k = n + length w.
Proof.
  revert n. induction s as [|c s IH]; intros n; simpl.
  - intros [E|[]]. inversion E; subst. exists []. simpl. split_and!; auto.
  - intros [E|Hin].
    + inversion E; subst. exists []. simpl. split_and!; auto.
    + destruct (p c) eqn:Hp; simpl in Hin; [|contradiction].
      destruct (below n max); [|contradiction].
      destruct (IH _ Hin) as (w & -> & Hw & ->).
      exists (c :: w). simpl. rewrite Hp, Hw. split_and!; auto; lia.
Qed.

Lemma repeats_unbounded p n w s' :
  forallb p w = true -> In (n + length w, s') (repeats p None n (w ++ s')).
Proof.
  revert n. induction w as [|c w IH]; intros n Hw; simpl in *.
  - replace (n + 0) with n by lia. destruct s'; simpl; auto.
  - apply andb_prop in Hw as [Hc Hw]. rewrite Hc. simpl. right.
    replace (n + S (length w)) with (S n + length w) by lia. auto.
Qed.

(** Whatever [run] returns is reached by consuming a word of the
    pattern's language. *)
Lemma run_sound icase r : ∀ st st',
  In st' (run icase r st) ->
  ∃ w, rest st = w ++ rest st' ∧ pos st' = pos st + length w
       ∧ lang icase r w.
Proof.
  induction r as [|cl|cl min max greedy|r1 IH1 r2 IH2|r1 IH1 r2 IH2
                 |n r IH| |]; intros st st'; simpl.
  - intros [<-|[]]. exists []. split_and!; auto.
  - destruct (rest st) as [|c s] eqn:E; [intros []|].
    destruct (cls_match icase cl c) eqn:Hc; [|intros []].
    intros [<-|[]]. simpl. exists [c]. simpl. split_and!; [done | lia | eauto].
  - rewrite in_map_iff. intros ([k s'] & <- & Hin). simpl.
    assert (Hf : In (k, s')
              (List.filter (fun e => min <=? fst e)
                 (repeats (cls_match icase cl) max 0 (rest st)))).
    { destruct greedy; [apply in_rev|]; exact Hin. }
    apply filter_In in Hf as [Hr Hmin]. simpl in Hmin.
    apply Nat.leb_le in Hmin.
    destruct (repeats_sound _ _ _ _ _ _ Hr) as (w & Hs & Hw & ->).
    exists w. split_and!; auto; lia.
  - rewrite in_flat_map. intros (mid & H1 & H2).
    destruct (IH1 _ _ H1) as (w1 & E1 & P1 & L1).
    destruct (IH2 _ _ H2) as (w2 & E2 & P2 & L2).
    exists (w1 ++ w2). rewrite E1, E2, P2, P1, length_app.
    split_and!; [by rewrite <- app_assoc | lia | eauto].
  - rewrite in_app_iff. intros [H1|H2].
    + destruct (IH1 _ _ H1) as (w & ? & ? & ?). eauto.
    + destruct (IH2 _ _ H2) as (w & ? & ? & ?). eauto.
  - rewrite in_map_iff. intros (mid & <- & Hin). simpl. eauto.
  - destruct (pos st =? 0); [|intros []].
    intros [<-|[]]. exists []. split_and!; auto.
  - destruct (rest st) eqn:E; [|intros []].
    intros [<-|[]]. exists []. rewrite E. split_and!; auto.
Qed.

(** A successful search found a word of the language somewhere at or
    after the start index. *)
Lemma search_sound icase r : ∀ s p m,
  search icase r p s = Some m ->
  ∃ pre w post,
    s = pre ++ w ++ post ∧ lang icase r w
    ∧ index m = p + length pre ∧ last m = index m + length w.
Proof.
  induction s as [|c s IH]; intros p m; simpl.
  - destruct (run icase r (MState p [] [])) as [|st' l] eqn:E; [done|].
    intros [= <-]. simpl.
    destruct (run_sound icase r (MState p [] []) st') as (w & Hs & Hp & Hl).
    { rewrite E. by left. }
    simpl in *. exists [], w, (rest st'). simpl. split_and!; auto; lia.
  - destruct (run icase r (MState p (c :: s) [])) as [|st' l] eqn:E.
    + intros Hm. destruct (IH _ _ Hm) as (pre & w & post & -> & Hl & Hi & Hla).
      exists (c :: pre), w, post. simpl. split_and!; auto; lia.
    + intros [= <-]. simpl.
      destruct (run_sound icase r (MState p (c :: s) []) st')
        as (w & Hs & Hp & Hl).
      { rewrite E. by left. }
      simpl in *. exists [], w, (rest st'). simpl. split_and!; auto; lia.
Qed.

Lemma exec_from_sound icase r from text m :
  exec_from icase r from text = Some m ->
  ∃ w, lang icase r w ∧ from + length w ≤ last m ∧ last m ≤ length text.
Proof.
  unfold exec_from. destruct (length text <? from) eqn:E; [done|].
  apply Nat.ltb_ge in E. intros Hm.
  destruct (search_sound _ _ _ _ _ Hm) as (pre & w & post & Hs & Hl & Hi & Hla).
  exists w. split_and!; auto; [lia|].
  assert (Hlen : length (skipn from text) = length text - from)
    by apply length_skipn.
  rewrite Hs, !length_app in Hlen. lia.
Qed.

(** Anchored at the start, nothing matches from a later index. *)
Lemma search_bol_later r1 : ∀ s p,
  0 < p -> search false (Seq (Seq Bol r1) Eol) p s = None.
Proof.
  induction s as [|c s IH]; intros p Hp; simpl;
    destruct p; try lia; simpl; auto with lia.
Qed.

(** [/^[class]+$/.test(line)]: the line is not empty and lies within
    the class. *)
Lemma test_whole_line cl line :
  test false (Seq (Seq Bol (Plus cl)) Eol) line
  = all_of (cls_match false cl) line.
Proof.
  unfold test, exec, all_of.
  assert (Hrun : ∀ st',
    In st' (run false (Seq (Seq Bol (Plus cl)) Eol) (MState 0 line []))
    -> 1 ≤ length line ∧ forallb (cls_match false cl) line = true).
  { intros st' Hin. simpl in Hin. rewrite app_nil_r in Hin.
    apply in_flat_map in Hin as (mid & Hmid & Hend).
    apply in_map_iff in Hmid as ([k s'] & <- & Hk).
    apply in_rev in Hk. apply filter_In in Hk as [Hr Hmin].
    simpl in *. assert (1 ≤ k) by (destruct k; [done|lia]).
    destruct s'; [|destruct Hend].
    destruct (repeats_sound _ _ _ _ _ _ Hr) as (w & Hs & Hw & ->).
    rewrite app_nil_r in Hs. subst w. split; [lia|done]. }
  destruct (nonempty line && forallb (cls_match false cl) line) eqn:Hall.
  - apply andb_prop in Hall as [Hne Hfor].
    apply bool_decide_eq_true.
    assert (Hin : In (MState (0 + length line) [] [])
      (run false (Seq (Seq Bol (Plus cl)) Eol) (MState 0 line []))).
    { simpl. rewrite app_nil_r. apply in_flat_map.
      exists (MState (0 + length line) [] []). split; [|by left].
      apply in_map_iff. exists (0 + length line, []). split; [done|].
      apply in_rev. rewrite rev_involutive. apply filter_In. split.
      - rewrite <- (app_nil_r line) at 2. by apply repeats_unbounded.
      - simpl. destruct line; [done|]. simpl. done. }
    destruct line as [|c s]; [done|]. cbn [search].
    destruct (run false _ (MState 0 (c :: s) [])); [destruct Hin | eauto].
  - apply bool_decide_eq_false. intros [m Hm].
    assert (Hnone : ∀ st', ¬ In st'
      (run false (Seq (Seq Bol (Plus cl)) Eol) (MState 0 line []))).
    { intros st' Hin. destruct (Hrun _ Hin) as [Hlen Hfor].
      rewrite Hfor in Hall. destruct line; simpl in *; [lia|done]. }
    destruct line as [|c s]; cbn [search] in Hm.
    + destruct (run false _ (MState 0 [] [])) as [|st' l] eqn:E; [done|].
      apply (Hnone st'). by left.
    + destruct (run false _ (MState 0 (c :: s) [])) as [|st' l] eqn:E.
      * rewrite search_bol_later in Hm by lia. done.
      * apply (Hnone st'). by left.
Qed.

End RegexFacts.

(** ** The field extractor *)

Module ExtractFacts.
Import Chars Regex Spec RegexFacts.

Ltac bools :=
  repeat match goal with
  | H : _ && _ = true |- _ => apply andb_prop in H as [? ?]
  | H : _ || _ = true |- _ => apply orb_prop in H as [?|?]
  | H : (_ =? _)%N = true |- _ => apply N.eqb_eq in H
  | H : (_ <=? _)%N = true |- _ => apply N.leb_le in H
  | H : (_ <=? _)%N = false |- _ => apply N.leb_gt in H
  | H : false = true |- _ => discriminate H
  end.

Ltac split_cases c :=
  unfold to_upper, to_lower, is_lower, is_upper, is_digit, between in *;
  destruct (N.leb_spec 97 c), (N.leb_spec c 122),
           (N.leb_spec 65 c), (N.leb_spec c 90);
  simpl in *; bools; try lia.

(** Case folding maps a code unit to itself or to a letter. *)
Lemma to_upper_letter c : to_upper c = c ∨ letter (to_upper c) = true.
Proof.
  unfold to_upper. destruct (is_lower c) eqn:E; [right|by left].
  unfold letter, is_upper, is_lower, between in *. bools.
  apply orb_true_intro. left.
  apply andb_true_intro. split; apply N.leb_le; lia.
Qed.

Lemma to_lower_letter c : to_lower c = c ∨ letter (to_lower c) = true.
Proof.
  unfold to_lower. destruct (is_upper c) eqn:E; [right|by left].
  unfold letter, is_upper, is_lower, between in *. bools.
  apply orb_true_intro. right.
  apply andb_true_intro. split; apply N.leb_le; lia.
Qed.

Lemma atom_no_letter a :
  match a with Lit x => letter x = false | Range _ _ | Dot => False
             | Digit | Space => True end ->
  ∀ x, atom_match a x = true -> letter x = false.
Proof.
  destruct a as [y|lo hi| | |]; simpl; try done.
  - intros Hy x Hx. apply N.eqb_eq in Hx. by subst.
  - intros _ x Hx. unfold letter. split_cases x.
  - intros _ x Hx. unfold letter, is_space in Hx |- *.
    split_cases x.
Qed.

(** Under the [i] flag a class without letters matches what it
    matches without the flag. *)
Lemma icase_class cl c :
  (∀ a x, In a cl -> atom_match a x = true -> letter x = false) ->
  cls_match true cl c = true -> cls_match false cl c = true.
Proof.
  intros Hcl. unfold cls_match. rewrite !existsb_exists.
  intros (a & Ha & Hm). exists a. split; [done|].
  simpl in Hm. rewrite andb_false_l, orb_false_r.
  apply orb_prop in Hm as [Hm|Hm]; [done|].
  apply orb_prop in Hm as [Hm|Hm].
  - destruct (to_upper_letter c) as [E|L]; [by rewrite E in Hm|].
    by rewrite (Hcl a _ Ha Hm) in L.
  - destruct (to_lower_letter c) as [E|L]; [by rewrite E in Hm|].
    by rewrite (Hcl a _ Ha Hm) in L.
Qed.

Lemma icase_digit c : cls_match true [Digit] c = true -> is_digit c = true.
Proof.
  intros Hc. apply icase_class in Hc.
  - unfold cls_match in Hc. simpl in Hc.
    by rewrite !orb_false_r in Hc.
  - intros a x [<-|[]]. by apply atom_no_letter.
Qed.

Lemma icase_amount_sep c :
  cls_match true Patterns.amountSep c = true -> is_amount_sep c = true.
Proof.
  intros Hc. apply icase_class in Hc.
  - unfold cls_match, Patterns.amountSep in Hc.
    change (Patterns.ch ":") with 58%N in Hc.
    change (Patterns.ch "$") with 36%N in Hc.
    cbn [existsb atom_match andb] in Hc. rewrite !orb_false_r in Hc.
    unfold is_amount_sep.
    by rewrite (N.eqb_sym c 58), (N.eqb_sym c 36), <- orb_assoc.
  - intros a x [<-|[<-|[<-|[]]]]; by apply atom_no_letter.
Qed.

Lemma icase_letter x c :
  is_lower x = true -> cls_match true [Lit x] c = true -> to_lower c = x.
Proof.
  unfold cls_match. simpl. rewrite orb_false_r. intros Hx Hc.
  split_cases c.
Qed.

Lemma icase_word u : ∀ w,
  forallb is_lower u = true -> lang true (Word u) w ->
  List.map to_lower w = u.
Proof.
  induction u as [|x u IH]; intros w Hu; simpl.
  - by intros ->.
  - simpl in Hu. apply andb_prop in Hu as [Hx Hu].
    intros (w1 & w2 & -> & (c & -> & Hc) & Hw2). simpl.
    by rewrite (icase_letter x c), (IH w2).
Qed.

(** A match of the amount pattern is a label, separators, then a digit. *)
Lemma amount_lang w :
  lang true Patterns.amountPattern w ->
  ∃ label seps d post,
    w = label ++ seps ++ d :: post ∧ is_total_label label
    ∧ forallb is_amount_sep seps = true ∧ is_digit d = true.
Proof.
  intros (w12 & w3 & -> & (label & seps & -> & Hlabel & _ & Hseps) & Hdec).
  destruct Hdec as (w45 & w6 & -> & (w4 & w5 & -> & [Hlen Hdig] & _) & _).
  destruct w4 as [|d w4]; [simpl in Hlen; lia|].
  simpl in Hdig. apply andb_prop in Hdig as [Hd _].
  exists label, seps, d, (w4 ++ w5 ++ w6). split_and!.
  - simpl. by rewrite <- !app_assoc.
  - destruct Hlabel as [[Ht|Ha]|Hs]; [left|right; left|right; right];
      by apply icase_word.
  - apply forallb_forall. intros c Hc. apply icase_amount_sep.
    eapply forallb_forall in Hseps; eauto.
  - by apply icase_digit.
Qed.

Lemma amount_exec text m :
  exec true Patterns.amountPattern text = Some m -> total_occurs text.
Proof.
  intros Hm. apply search_sound in Hm as (pre & w & post & -> & Hl & _).
  apply amount_lang in Hl as (label & seps & d & tl & -> & ? & ? & ?).
  exists pre, label, seps, d, (tl ++ post). split_and!; auto.
  by rewrite <- !app_assoc.
Qed.

(** Each match of the item pattern is at least one unit long, so the
    loop over the matches ends. *)
Lemma item_lang_nonempty w :
  lang false Patterns.itemPattern w -> 1 ≤ length w.
Proof.
  unfold Patterns.itemPattern. cbn [lang].
  intros H. repeat match goal with
  | H : ∃ _, _ |- _ => destruct H
  | H : _ ∧ _ |- _ => destruct H
  end. subst. rewrite !length_app. lia.
Qed.

Lemma items_loop_total text : ∀ fuel lastIndex items,
  lastIndex ≤ length text -> length text - lastIndex < fuel ->
  is_Some (items_loop fuel text lastIndex items).
Proof.
  induction fuel as [|fuel IH]; intros lastIndex items Hle Hfuel; [lia|].
  simpl. destruct (exec_from false Patterns.itemPattern lastIndex text)
    as [m|] eqn:E; [|eauto].
  apply exec_from_sound in E as (w & Hw & Hlo & Hhi).
  apply item_lang_nonempty in Hw. apply IH; lia.
Qed.

(** The fields of the extractor's result that do not depend on the
    line items. *)
Lemma extract_fields text :
  ∃ d, extractBillingData text = Some d
    ∧ d !! "invoiceNumber" =
        Some (VStr (match Regex.exec true Patterns.invoicePattern text with
                    | Some m => Regex.group 1 m
                    | None => []
                    end))
    ∧ d !! "date" =
        Some (VStr (match Regex.exec false Patterns.datePattern text with
                    | Some m => Regex.whole m
                    | None => []
                    end))
    ∧ d !! "currency" = Some (VStr (js "USD"))
    ∧ d !! "totalAmount" =
        Some (match Regex.exec true Patterns.amountPattern text with
              | Some m => Parse.parseFloat (Regex.group 1 m)
              | None => num_of_Z 0
              end)
    ∧ d !! "vendor" =
        Some (VStr (List.hd []
          (List.filter meaningful
             (List.filter nonempty (List.map trim (split_on LF text)))))).
Proof.
  unfold extractBillingData.
  destruct (items_loop_total text (S (length text)) 0 []) as [items ->];
    [lia..|].
  eexists. split; [reflexivity|].
  destruct (Regex.exec true Patterns.invoicePattern text),
           (Regex.exec false Patterns.datePattern text),
           (Regex.exec true Patterns.amountPattern text),
           (List.filter meaningful
             (List.filter nonempty (List.map trim (split_on LF text))));
    simpl; split_and!; by simplify_map_eq.
Qed.

(** The extractor always returns. *)
Lemma extractBillingData_total text : is_Some (extractBillingData text).
Proof. destruct (extract_fields text) as (d & -> & _). eauto. Qed.

End ExtractFacts.

(** ** Claims about the field extractor *)

Module ExtractClaims.
Import Chars Spec RegexFacts ExtractFacts.

(** C10: for every text the extractor returns the currency "USD". *)
Theorem currency_always_USD text :
  ∃ d, extractBillingData text = Some d
    ∧ d !! "currency" = Some (VStr (js "USD")).
Proof. destruct (extract_fields text) as (d & ? & _ & _ & ? & _). eauto. Qed.

(** C3: on the sample invoice text the extractor returns invoice
    number INV-2024-099, date 2024-03-01 and total amount 123.45. *)
Theorem sample_invoice_fields :
  ∃ d, extractBillingData sample_invoice = Some d
    ∧ d !! "invoiceNumber" = Some (VStr (js "INV-2024-099"))
    ∧ d !! "date" = Some (VStr (js "2024-03-01"))
    ∧ d !! "totalAmount" = Some (VNum (Q2Qc 123.45)).
Proof.
  destruct (extract_fields sample_invoice) as (d & Hd & Hi & Hdt & _ & Ht & _).
  exists d. rewrite Hi, Hdt, Ht. split_and!; [done|..]; by vm_compute.
Qed.

(** A total label with its number contains a digit. *)
Lemma total_occurs_digit text :
  total_occurs text -> existsb is_digit text = true.
Proof.
  intros (pre & label & seps & d & post & -> & _ & _ & Hd).
  rewrite !existsb_app. simpl. rewrite Hd.
  by rewrite !orb_true_r.
Qed.

(** C4, as stated, fails: a text without any total label yields the
    number zero, which is not an empty field and is the very value
    extracted from the text "Total: 0". *)
Lemma absent_total_not_empty :
  ¬ total_occurs (js "Thank you")
  ∧ ∃ d, extractBillingData (js "Thank you") = Some d
      ∧ ¬ empty_field (d !! "totalAmount")
      ∧ ∃ d0, extractBillingData (js "Total: 0") = Some d0
          ∧ d0 !! "totalAmount" = d !! "totalAmount".
Proof.
  split.
  - intros H. apply total_occurs_digit in H. vm_compute in H. done.
  - destruct (extract_fields (js "Thank you")) as (d & Hd & _ & _ & _ & Ht & _).
    destruct (extract_fields (js "Total: 0")) as (d0 & Hd0 & _ & _ & _ & Ht0 & _).
    exists d. split; [done|]. rewrite Ht. split.
    + vm_compute. by intros [?|[?|?]].
    + exists d0. split; [done|]. rewrite Ht0. by vm_compute.
Qed.

(** C4, amended: when no total label followed by a number occurs in
    the text, the extractor leaves the total amount at its initial
    value, the number zero. *)
Theorem absent_total_is_zero text :
  ¬ total_occurs text ->
  ∃ d, extractBillingData text = Some d
    ∧ d !! "totalAmount" = Some (num_of_Z 0).
Proof.
  intros Hno. destruct (extract_fields text) as (d & Hd & _ & _ & _ & Ht & _).
  exists d. split; [done|]. rewrite Ht.
  destruct (Regex.exec true Patterns.amountPattern text) as [m|] eqn:E;
    [|done].
  destruct Hno. by apply amount_exec in E.
Qed.

Lemma absent_total_is_zero_witness :
  ¬ total_occurs (js "Thank you")
  ∧ ∃ d, extractBillingData (js "Thank you") = Some d
      ∧ d !! "totalAmount" = Some (num_of_Z 0).
Proof.
  assert (Hno : ¬ total_occurs (js "Thank you")).
  { intros H. apply total_occurs_digit in H. vm_compute in H. done. }
  split; [exact Hno|]. exact (absent_total_is_zero (js "Thank you") Hno).
Defined.

Lemma all_of_ext p q line :
  (∀ c, p c = q c) -> all_of p line = all_of q line.
Proof.
  intros Hpq. unfold all_of. f_equal.
  induction line as [|c line IH]; simpl; [done|]. by rewrite Hpq, IH.
Qed.

(** The two pattern tests of the extractor, without patterns. *)
Lemma meaningful_spec line : meaningful line = meaningful_line line.
Proof.
  unfold meaningful, meaningful_line, Patterns.numericLine,
    Patterns.separatorLine.
  rewrite !test_whole_line. f_equal; [f_equal|]; f_equal.
  - apply all_of_ext. intros c. unfold Regex.cls_match.
    cbn [existsb Regex.atom_match andb]. by rewrite !orb_false_r.
  - apply all_of_ext. intros c. unfold Regex.cls_match, is_date_sep.
    change (Patterns.ch "/") with 47%N. change (Patterns.ch "-") with 45%N.
    cbn [existsb Regex.atom_match andb]. rewrite !orb_false_r.
    by rewrite (N.eqb_sym c 47), (N.eqb_sym c 45), <- orb_assoc.
Qed.

Lemma meaningful_nonempty line :
  meaningful_line line = true -> nonempty line = true.
Proof. by destruct line. Qed.

Lemma first_meaningful lines :
  List.hd [] (List.filter meaningful (List.filter nonempty lines))
  = default [] (List.find meaningful_line lines).
Proof.
  induction lines as [|l lines IH]; simpl; [done|].
  destruct (meaningful_line l) eqn:Hm.
  - rewrite (meaningful_nonempty l Hm). simpl.
    by rewrite meaningful_spec, Hm.
  - destruct (nonempty l); [simpl; rewrite meaningful_spec, Hm|]; exact IH.
Qed.

(** C9, as stated, fails: a line of punctuation other than slashes and
    hyphens is taken as the vendor, although the first non-trivial
    line in the words of the specification is the one after it. *)
Lemma vendor_takes_punctuation_line :
  first_line nontrivial (js "=====" ++ [LF] ++ js "ACME Corp")
    = js "ACME Corp"
  ∧ ∃ d, extractBillingData (js "=====" ++ [LF] ++ js "ACME Corp") = Some d
      ∧ d !! "vendor" = Some (VStr (js "=====")).
Proof.
  split; [by vm_compute|].
  destruct (extract_fields (js "=====" ++ [LF] ++ js "ACME Corp"))
    as (d & Hd & _ & _ & _ & _ & Hv).
  exists d. split; [done|]. rewrite Hv. by vm_compute.
Qed.

(** C9, amended: the vendor is the first trimmed line that is longer
    than three code units, not purely numeric, and not made of
    slashes, hyphens and white space only; it is the empty string when
    there is no such line. *)
Theorem vendor_first_meaningful_line text :
  ∃ d, extractBillingData text = Some d
    ∧ d !! "vendor" = Some (VStr (first_line meaningful_line text)).
Proof.
  destruct (extract_fields text) as (d & Hd & _ & _ & _ & _ & Hv).
  exists d. split; [done|]. by rewrite Hv, first_meaningful.
Qed.

End ExtractClaims.

(** ** The record store *)

Module StoreFacts.
Import Spec.


Lemma store_update_length id f (recs : list obj) :
  length (store_update id f recs) = length recs.
Proof.
  unfold store_update. destruct (findIndex _ _); [|done].
  apply length_alter.
Qed.

Lemma store_update_Forall (P : obj -> Prop) id f recs :
  (∀ r, P r -> P (f r)) -> Forall P recs -> Forall P (store_update id f recs).
Proof.
  intros Hf Hall. unfold store_update.
  destruct (findIndex _ _); [|done]. apply Forall_alter; [done|].
  intros r _. apply Hf.
Qed.

Lemma findIndex_Some p (l : list obj) i :
  findIndex p l = Some i ->
  ∃ r, l !! i = Some r ∧ p r = true ∧ ∀ j r', j < i -> l !! j = Some r' -> p r' = false.
Proof.
  revert i. induction l as [|x l IH]; intros i; simpl; [done|].
  destruct (p x) eqn:Hx.
  - intros [= <-]. exists x. split_and!; auto. intros; lia.
  - destruct (findIndex p l) as [k|]; [|done]. intros [= <-].
    destruct (IH k eq_refl) as (r & Hr & Hp & Hlt).
    exists r. split_and!; auto.
    intros [|j] r' Hj Hr'; simpl in Hr'; [by simplify_eq|].
    apply (Hlt j); [lia|done].
Qed.

(** In a store where no record has the identifier, a record pushed
    with it is the one [findIndex] finds. *)
Lemma findIndex_fresh id (recs : list obj) r :
  Forall (fun r' => has_id id r' = false) recs -> has_id id r = true ->
  findIndex (has_id id) (recs ++ [r]) = Some (length recs).
Proof.
  intros Hfresh Hr. induction Hfresh as [|x l Hx _ IH]; simpl.
  - by rewrite Hr.
  - by rewrite Hx, IH.
Qed.

(** The invariant depends on two fields only. *)
Lemma extracted_iff_done_ext r r' :
  r' !! "status" = r !! "status" ->
  r' !! "extractedAt" = r !! "extractedAt" ->
  extracted_iff_done r -> extracted_iff_done r'.
Proof.
  unfold extracted_iff_done, extracted_set, is_processing.
  by intros -> ->.
Qed.

Lemma js_completed_ne : js "completed" ≠ js "processing".
Proof. by vm_compute. Qed.

Lemma js_error_ne : js "error" ≠ js "processing".
Proof. by vm_compute. Qed.

Lemma terminal_extracted r status now :
  r !! "status" = Some (VStr status) -> status ≠ js "processing" ->
  r !! "extractedAt" = Some (VStr now) ->
  extracted_iff_done r.
Proof.
  intros Hs Hne Ht. split.
  - intros _. unfold is_processing. rewrite Hs. congruence.
  - intros _. exists (VStr now). by split.
Qed.

End StoreFacts.

(** ** The pipeline and the handlers *)

Section ServerClaims.
Context `{Platform}.
Import Spec StoreFacts ExtractFacts.

Ltac run_pipeline :=
  unfold processImageAsync, try_catch, bind, preprocessImage, recognize,
    extract, existsSync, removeSync, update_record, update, gets, ret,
    throw, hang; simpl.

(** What a run does to the store: nothing (only when the extractor
    does not return), the error update, the success update, or the
    success update followed by the error update (when the clean-up
    throws). *)
Lemma process_records env id imagePath w :
  let recs := billingRecords w in
  let after := billingRecords (processImageAsync env id imagePath w).2 in
  let failed := store_update id (fun old => failed_record old (failed_at env)) in
  after = recs
  ∨ after = failed recs
  ∨ ∃ d text,
      let completed :=
        store_update id
          (fun old => completed_record old d (completed_at env) text) in
      after = completed recs ∨ after = failed (completed recs).
Proof.
  destruct env as [[|wrote] [text conf|] rt t1 t2]; run_pipeline; auto.
  destruct (extractBillingData text) as [d|]; simpl; auto.
  do 2 right. eexists _, text.
  destruct (bool_decide _); simpl; auto. destruct rt; simpl; auto.
Qed.

Lemma completed_record_done old d now text :
  extracted_iff_done (completed_record old d now text).
Proof.
  apply (terminal_extracted _ (js "completed") now);
    [|apply js_completed_ne|]; unfold completed_record; by simplify_map_eq.
Qed.

Lemma failed_record_done old now :
  extracted_iff_done (failed_record old now).
Proof.
  apply (terminal_extracted _ (js "error") now);
    [|apply js_error_ne|]; unfold failed_record; by simplify_map_eq.
Qed.

Lemma initial_record_processing imageId file now :
  extracted_iff_done (initial_record imageId file now).
Proof.
  unfold extracted_iff_done, extracted_set, is_processing, initial_record.
  split.
  - intros (v & Hv & Hne). by simplify_map_eq.
  - intros Hne. destruct Hne. by simplify_map_eq.
Qed.

Lemma process_keeps_invariant env id imagePath w :
  Forall extracted_iff_done (billingRecords w) ->
  Forall extracted_iff_done
         (billingRecords (processImageAsync env id imagePath w).2).
Proof.
  intros Hall.
  destruct (process_records env id imagePath w)
    as [->|[->|(d & text & [->| ->])]]; [done|..];
    repeat apply store_update_Forall; auto using completed_record_done,
      failed_record_done.
Qed.

Lemma export_keeps_records env w :
  billingRecords (exportRecords env w).2 = billingRecords w.
Proof.
  unfold exportRecords, generateExcelFile.
  destruct (length _ =? 0); [done|].
  destruct (mapM summary_row _); [|done].
  destruct (detailed_rows _ _); [|done].
  unfold bind, update, throw, ret. simpl.
  destruct (write_throws env); simpl; [done|].
  by destruct (download_fails env).
Qed.

Lemma has_id_initial_record imageId file now :
  has_id imageId (initial_record imageId file now) = true.
Proof.
  unfold has_id, field_is, initial_record. rewrite lookup_insert_eq.
  by apply bool_decide_eq_true.
Qed.

(** The update of a record that [findIndex] finds. *)
Lemma put_found id body now w i r :
  findIndex (has_id id) (billingRecords w) = Some i ->
  billingRecords w !! i = Some r ->
  billingRecords (putRecord id body now w).2 !! i
  = Some (<["updatedAt" := VStr now]> (spread r body)).
Proof.
  intros Hi Hr. unfold putRecord. rewrite Hi. simpl.
  by rewrite list_lookup_alter_eq, Hr.
Qed.

Lemma put_lookup id body now w i r :
  billingRecords w !! i = Some r ->
  billingRecords (putRecord id body now w).2 !! i = Some r
  ∨ billingRecords (putRecord id body now w).2 !! i
    = Some (<["updatedAt" := VStr now]> (spread r body)).
Proof.
  intros Hr. unfold putRecord.
  destruct (findIndex _ _) as [j|]; simpl; [|by left].
  destruct (decide (j = i)) as [->|Hne].
  - right. by rewrite list_lookup_alter_eq, Hr.
  - left. by rewrite list_lookup_alter_ne.
Qed.

Lemma put_keeps_invariant id body now w :
  keeps_state body ->
  Forall extracted_iff_done (billingRecords w) ->
  Forall extracted_iff_done (billingRecords (putRecord id body now w).2).
Proof.
  intros [Hs He] Hall. unfold putRecord.
  destruct (findIndex _ _) as [j|]; simpl; [|done].
  apply Forall_alter; [done|]. intros r _.
  apply extracted_iff_done_ext; unfold spread;
    rewrite lookup_insert_ne by done; by apply lookup_union_r.
Qed.

Lemma step_keeps_invariant w w' :
  step keeps_state w w' ->
  Forall extracted_iff_done (billingRecords w) ->
  Forall extracted_iff_done (billingRecords w').
Proof.
  intros Hstep Hall.
  destruct Hstep as [[f|] imageId now w|env id p w|id body now w Hbody|env w];
    simpl.
  - apply Forall_app. split; [done|].
    apply Forall_singleton, initial_record_processing.
  - done.
  - by apply process_keeps_invariant.
  - by apply put_keeps_invariant.
  - by rewrite export_keeps_records.
Qed.

(** C1, amended: in every state reached through uploads, pipeline
    runs, exports and updates whose body names neither [status] nor
    [extractedAt], each record has [extractedAt] set if and only if
    its status is not "processing". *)
Theorem extracted_iff_not_processing w r :
  reachable keeps_state w -> r ∈ billingRecords w ->
  extracted_iff_done r.
Proof.
  intros (w0 & Hw0 & Hsteps) Hr.
  assert (Hall0 : Forall extracted_iff_done (billingRecords w0))
    by (by rewrite Hw0).
  clear Hw0. induction Hsteps as [w0|w0 w1 w2 Hstep _ IH].
  - rewrite List.Forall_forall in Hall0. by apply Hall0, list_elem_of_In.
  - apply IH; [done|]. by eapply step_keeps_invariant.
Qed.

(** C2, amended: an update keeps every stored record in its place,
    and whatever the request body, a field other than [updatedAt] that
    the body does not name is unchanged; in particular [status] is
    unchanged when the body does not name it, and so is [id]. *)
Theorem put_keeps_unnamed_fields id body now w i r :
  billingRecords w !! i = Some r ->
  length (billingRecords (putRecord id body now w).2)
  = length (billingRecords w)
  ∧ ∃ r', billingRecords (putRecord id body now w).2 !! i = Some r'
      ∧ (body !! "status" = None -> r' !! "status" = r !! "status")
      ∧ (body !! "id" = None -> r' !! "id" = r !! "id")
      ∧ ∀ k, k ≠ "updatedAt" -> body !! k = None -> r' !! k = r !! k.
Proof.
  intros Hr. split.
  { unfold putRecord. destruct (findIndex _ _); [apply length_alter|done]. }
  destruct (put_lookup id body now w i r Hr) as [->| ->];
    eexists; (split; [reflexivity|]).
  - done.
  - assert (Hk : ∀ k, k ≠ "updatedAt" -> body !! k = None ->
              (<["updatedAt" := VStr now]> (spread r body)) !! k = r !! k).
    { intros k Hne Hk. rewrite lookup_insert_ne by done.
      by apply lookup_union_r. }
    split_and!; auto.
Qed.

(** C5: when [sharp] has written the intermediate image and the OCR
    engine then fails, the run ends with the intermediate image still
    on disk. *)
Theorem intermediate_left_after_ocr_failure
        w recordId imagePath rt t1 t2 :
  let env := RunEnv SharpOk OcrThrows rt t1 t2 in
  let run := processImageAsync env recordId imagePath w in
  run.1 = Returned tt
  ∧ outputPath imagePath ∈ files run.2
  ∧ calls run.2 = calls w ++ [CallSharp imagePath (outputPath imagePath);
                              CallRecognize (outputPath imagePath)].
Proof.
  run_pipeline. split_and!; [done| |by rewrite <- app_assoc].
  by apply elem_of_union_l, elem_of_singleton.
Qed.

(** On a run in which every stage succeeds and the clean-up does not
    throw, the intermediate image is gone at the end. *)
Lemma intermediate_removed_on_success
      w recordId imagePath text conf t1 t2 :
  let env := RunEnv SharpOk (OcrOk text conf) false t1 t2 in
  outputPath imagePath ∉ files (processImageAsync env recordId imagePath w).2.
Proof.
  run_pipeline. destruct (extractBillingData_total text) as [d ->].
  simpl. rewrite bool_decide_eq_true_2
    by (by apply elem_of_union_l, elem_of_singleton).
  simpl. intros Hin. apply elem_of_difference in Hin as [_ Hout].
  by apply Hout, elem_of_singleton.
Qed.





(** C8: when no record is completed, the export is answered with
    status 400 and the message "No completed records to export", and
    nothing changes: no file is written and no library is called. *)
Theorem export_without_completed_rejected env w :
  List.filter (has_status "completed") (billingRecords w) = [] ->
  exportRecords env w
  = (Json 400 (error_body "No completed records to export"), w).
Proof. intros Hnone. unfold exportRecords. by rewrite Hnone. Qed.

End ServerClaims.

(** ** Concrete runs *)

Lemma uploaded_world_reachable allowed :
  @reachable sample_platform allowed uploaded_world.
Proof.
  exists empty_world. split; [done|].
  eapply rtc_l; [|apply rtc_refl]. apply step_upload.
Qed.

Lemma uploaded_world_finds :
  findIndex (has_id sample_id) (billingRecords uploaded_world) = Some 0.
Proof.
  apply (StoreFacts.findIndex_fresh sample_id [] uploaded_record);
    [constructor|apply has_id_initial_record].
Qed.

Lemma edited_world_lookup :
  billingRecords edited_world !! 0 = Some edited_record.
Proof. by apply put_found; [apply uploaded_world_finds|]. Qed.

Lemma edited_record_status :
  edited_record !! "status" = Some (VStr (js "completed")).
Proof.
  unfold edited_record, spread, overwriting_body.
  rewrite lookup_insert_ne by done. apply lookup_union_Some_l.
  by rewrite lookup_insert_eq.
Qed.

Lemma edited_record_id : edited_record !! "id" = Some (VStr (js "id-2")).
Proof.
  unfold edited_record, spread, overwriting_body.
  rewrite lookup_insert_ne by done. apply lookup_union_Some_l.
  rewrite lookup_insert_ne by done. by rewrite lookup_singleton_eq.
Qed.

Lemma edited_record_extractedAt :
  edited_record !! "extractedAt" = Some VNull.
Proof.
  unfold edited_record, spread, overwriting_body.
  rewrite lookup_insert_ne by done. rewrite lookup_union_r.
  - unfold uploaded_record, initial_record. by simplify_map_eq.
  - rewrite lookup_insert_ne by done. by rewrite lookup_singleton_ne.
Qed.

(** C1, as stated, fails: an update may name [status], and after it the
    record is "completed" while [extractedAt] is still null. *)
Lemma put_status_breaks_invariant :
  @reachable sample_platform Spec.any_body edited_world
  ∧ billingRecords edited_world !! 0 = Some edited_record
  ∧ ¬ Spec.extracted_iff_done edited_record.
Proof.
  split_and!.
  - exists empty_world. split; [done|].
    eapply rtc_l;
      [apply (step_upload _ (Some sample_file) sample_id upload_time)|].
    eapply rtc_l; [|apply rtc_refl].
    by apply (step_put _ sample_id overwriting_body edit_time).
  - apply edited_world_lookup.
  - intros [_ Hset]. destruct Hset as (v & Hv & Hne).
    + unfold Spec.is_processing. rewrite edited_record_status.
      by intros [=].
    + rewrite edited_record_extractedAt in Hv. by simplify_eq.
Qed.

Lemma extracted_iff_not_processing_witness :
  @reachable sample_platform Spec.keeps_state uploaded_world
  ∧ uploaded_record ∈ billingRecords uploaded_world
  ∧ Spec.extracted_iff_done uploaded_record.
Proof.
  assert (Hin : uploaded_record ∈ billingRecords uploaded_world).
  { apply (list_elem_of_lookup_2 _ 0). reflexivity. }
  split_and!; [apply uploaded_world_reachable|exact Hin|].
  exact (@extracted_iff_not_processing sample_platform uploaded_world
           uploaded_record (uploaded_world_reachable _) Hin).
Defined.

(** C2, as stated, fails: a body that names [status] and [id] changes
    both fields of the stored record. *)
Lemma put_overwrites_status_and_id :
  billingRecords uploaded_world !! 0 = Some uploaded_record
  ∧ billingRecords edited_world !! 0 = Some edited_record
  ∧ edited_record !! "status" ≠ uploaded_record !! "status"
  ∧ edited_record !! "id" ≠ uploaded_record !! "id".
Proof.
  split_and!; [reflexivity|apply edited_world_lookup|..].
  - rewrite edited_record_status. unfold uploaded_record, initial_record.
    simplify_map_eq. by intros [=].
  - rewrite edited_record_id. unfold uploaded_record, initial_record.
    simplify_map_eq. by intros [=].
Qed.

Lemma put_keeps_unnamed_fields_witness :
  billingRecords uploaded_world !! 0 = Some uploaded_record
  ∧ vendor_body !! "status" = None
  ∧ vendor_body !! "id" = None
  ∧ overwriting_body !! "imagePath" = None
  ∧ (∃ r', billingRecords
             (putRecord sample_id vendor_body edit_time uploaded_world).2 !! 0
           = Some r'
       ∧ r' !! "status" = uploaded_record !! "status"
       ∧ r' !! "id" = uploaded_record !! "id"
       ∧ ∀ k, k ≠ "updatedAt" -> vendor_body !! k = None ->
              r' !! k = uploaded_record !! k)
  ∧ ∃ r', billingRecords
            (putRecord sample_id overwriting_body edit_time uploaded_world).2
            !! 0
          = Some r'
      ∧ r' !! "imagePath" = uploaded_record !! "imagePath".
Proof.
  assert (Hs : vendor_body !! "status" = None)
    by (by apply lookup_singleton_ne).
  assert (Hi : vendor_body !! "id" = None)
    by (by apply lookup_singleton_ne).
  assert (Hp : overwriting_body !! "imagePath" = None).
  { unfold overwriting_body. rewrite lookup_insert_ne by done.
    by apply lookup_singleton_ne. }
  split_and!; [reflexivity|exact Hs|exact Hi|exact Hp|..].
  - destruct (proj2 (put_keeps_unnamed_fields sample_id vendor_body edit_time
                       uploaded_world 0 uploaded_record eq_refl))
      as (r' & Hr' & Hs' & Hi' & Hframe).
    exists r'. split_and!; [exact Hr'|exact (Hs' Hs)|exact (Hi' Hi)
                           |exact Hframe].
  - destruct (proj2 (put_keeps_unnamed_fields sample_id overwriting_body
                       edit_time uploaded_world 0 uploaded_record eq_refl))
      as (r' & Hr' & _ & _ & Hframe).
    exists r'. split; [exact Hr'|]. by apply Hframe.
Defined.

Lemma plain_record_items : plain_record !! "items" = Some (VArr []).
Proof. apply lookup_insert_eq. Qed.

Lemma plain_record_summary :
  @summary_row sample_platform plain_record = Some plain_summary.
Proof.
  unfold summary_row, plain_record, plain_summary. simpl.
  rewrite !lookup_insert_ne by done. rewrite lookup_empty. simpl.
  rewrite lookup_insert_eq. unfold or_else, truthy.
  by rewrite bool_decide_eq_false_2.
Qed.



Lemma uploaded_world_none_completed :
  List.filter (has_status "completed") (billingRecords uploaded_world) = [].
Proof.
  simpl. unfold has_status, field_is, initial_record.
  rewrite lookup_insert_ne by done. rewrite lookup_insert_ne by done.
  rewrite lookup_insert_ne by done. rewrite lookup_insert_eq.
  by rewrite bool_decide_eq_false_2.
Qed.

Lemma export_without_completed_rejected_witness :
  List.filter (has_status "completed") (billingRecords uploaded_world) = []
  ∧ @exportRecords sample_platform export_at_noon uploaded_world
    = (Json 400 (error_body "No completed records to export"), uploaded_world).
Proof.
  split; [apply uploaded_world_none_completed|].
  exact (@export_without_completed_rejected sample_platform export_at_noon
           uploaded_world uploaded_world_none_completed).
Defined.

(** * Further properties *)

(** ** The store and its handlers *)

Section HandlerProperties.
Context `{Platform}.
Import Spec StoreFacts.

Lemma findIndex_absent p (l : list obj) :
  Forall (fun r => p r = false) l -> findIndex p l = None.
Proof.
  induction 1 as [|x l Hx _ IH]; simpl; [done|]. by rewrite Hx, IH.
Qed.


Lemma find_fresh p (l : list obj) r :
  Forall (fun r' => p r' = false) l -> p r = true ->
  List.find p (l ++ [r]) = Some r.
Proof.
  intros Hl Hr. induction Hl as [|x l Hx _ IH]; simpl.
  - by rewrite Hr.
  - by rewrite Hx.
Qed.

(** X1: the identifier returned by an upload resolves: when no stored
    record has the new identifier, reading it back right after the
    upload answers 200 with the record as created. *)
Theorem uploaded_record_resolves w file imageId now :
  Forall (fun r => has_id imageId r = false) (billingRecords w) ->
  getRecord imageId (upload (Some file) imageId now w).2
  = Json 200 (VObj (initial_record imageId file now)).
Proof.
  intros Hfresh. unfold getRecord. simpl.
  by rewrite (find_fresh _ _ _ Hfresh (has_id_initial_record imageId file now)).
Qed.


(** X3: an update of a stored record answers 200 with the updated
    record; every field the body names takes the body's value, and
    [updatedAt] is the time of the update even when the body names it. *)
Theorem put_body_wins id body now w i r :
  findIndex (has_id id) (billingRecords w) = Some i ->
  billingRecords w !! i = Some r ->
  ∃ r', putRecord id body now w
        = (Json 200 (VObj r'), (putRecord id body now w).2)
    ∧ billingRecords (putRecord id body now w).2 !! i = Some r'
    ∧ r' !! "updatedAt" = Some (VStr now)
    ∧ ∀ k v, k ≠ "updatedAt" -> body !! k = Some v -> r' !! k = Some v.
Proof.
  intros Hi Hr. pose proof (put_found id body now w i r Hi Hr) as Hnew.
  exists (<["updatedAt" := VStr now]> (spread r body)). split_and!.
  - unfold putRecord in *. rewrite Hi in *. simpl in *. by rewrite Hnew.
  - done.
  - apply lookup_insert_eq.
  - intros k v Hk Hv. rewrite lookup_insert_ne by done.
    by apply lookup_union_Some_l.
Qed.

(** X4: an update touches one record only: the store keeps its length,
    every record other than the first one with the identifier is
    unchanged, and neither files nor library calls are affected. *)
Theorem put_changes_one_record id body now w :
  let w' := (putRecord id body now w).2 in
  length (billingRecords w') = length (billingRecords w)
  ∧ files w' = files w
  ∧ calls w' = calls w
  ∧ ∀ j, findIndex (has_id id) (billingRecords w) ≠ Some j ->
         billingRecords w' !! j = billingRecords w !! j.
Proof.
  unfold putRecord. destruct (findIndex _ _) as [i|]; simpl; [|done].
  split_and!; [apply length_alter|done|done|].
  intros j Hj. apply list_lookup_alter_ne. congruence.
Qed.

(** X5: [canExport] of the export status tells whether an export is
    accepted: it is false exactly when the export is answered with 400
    "No completed records to export". *)
Theorem canExport_iff_export_accepted env w :
  ∃ o b, exportStatus w = Json 200 (VObj o)
    ∧ o !! "canExport" = Some (VBool b)
    ∧ (b = false
       ↔ exportRecords env w
         = (Json 400 (error_body "No completed records to export"), w)).
Proof.
  unfold exportStatus. eexists _, _. split; [reflexivity|]. split.
  - by simplify_map_eq.
  - unfold exportRecords.
    destruct (List.filter (has_status "completed") (billingRecords w))
      as [|r l]; simpl; [done|].
    split; [done|]. intros Hexp.
    destruct (generateExcelFile env (r :: l) w) as [[[fn fp]| |] w'];
      [destruct (download_fails env)|..]; discriminate Hexp.
Qed.

Lemma status_exclusive a b r :
  js a ≠ js b -> has_status a r = true -> has_status b r = false.
Proof.
  unfold has_status, field_is. intros Hne.
  destruct (r !! "status") as [[| | | |s| |]|]; try done.
  intros Ha. apply bool_decide_eq_true in Ha. subst s.
  by apply bool_decide_eq_false.
Qed.

Lemma known_status_counted r :
  known_status r ->
  has_status "completed" r || has_status "processing" r
  || has_status "error" r = true.
Proof.
  unfold known_status, has_status, field_is.
  intros [-> |[-> | ->]]; by vm_compute.
Qed.

(** X6: in the export status the three per-status counts never add up
    to more than the total, and they add up to it when every record has
    one of the three statuses. *)
Theorem status_counts_add_up w :
  ∃ o t c p e,
    exportStatus w = Json 200 (VObj o)
    ∧ o !! "total" = Some (num_of_nat t)
    ∧ o !! "completed" = Some (num_of_nat c)
    ∧ o !! "processing" = Some (num_of_nat p)
    ∧ o !! "error" = Some (num_of_nat e)
    ∧ c + p + e ≤ t
    ∧ (Forall known_status (billingRecords w) -> c + p + e = t).
Proof.
  unfold exportStatus. eexists _, _, _, _, _.
  split; [reflexivity|]. split_and!; try (by simplify_map_eq).
  - induction (billingRecords w) as [|r l IH]; simpl; [lia|].
    destruct (has_status "completed" r) eqn:Hc.
    + rewrite (status_exclusive "completed" "processing" r),
        (status_exclusive "completed" "error" r) by done. simpl. lia.
    + destruct (has_status "processing" r) eqn:Hp.
      * rewrite (status_exclusive "processing" "error" r) by done.
        simpl. lia.
      * destruct (has_status "error" r); simpl; lia.
  - induction 1 as [|r l Hr _ IH]; simpl; [done|].
    apply known_status_counted in Hr.
    destruct (has_status "completed" r) eqn:Hc.
    + rewrite (status_exclusive "completed" "processing" r),
        (status_exclusive "completed" "error" r) by done. simpl. lia.
    + destruct (has_status "processing" r) eqn:Hp.
      * rewrite (status_exclusive "processing" "error" r) by done.
        simpl. lia.
      * destruct (has_status "error" r); simpl in *; [lia|done].
Qed.

End HandlerProperties.

(** ** Reachable states *)

Section StepProperties.
Context `{Platform}.
Import Spec StoreFacts.




Lemma step_length allowed w w' :
  step allowed w w' ->
  length (billingRecords w) ≤ length (billingRecords w').
Proof.
  intros Hstep.
  destruct Hstep as [[f|] imageId now w|env id p w|id body now w Hbody|env w];
    simpl.
  - rewrite length_app. lia.
  - done.
  - destruct (process_records env id p w)
      as [->|[->|(d & text & [->| ->])]];
      by rewrite ?store_update_length.
  - unfold putRecord. destruct (findIndex _ _); simpl; [|done].
    by rewrite length_alter.
  - by rewrite export_keeps_records.
Qed.

(** X7: no operation removes a record: along any sequence of
    operations, whatever the request bodies, the store never gets
    shorter and every index that held a record still holds one. *)
Theorem records_never_removed allowed w w' :
  rtc (step allowed) w w' ->
  length (billingRecords w) ≤ length (billingRecords w')
  ∧ ∀ i, is_Some (billingRecords w !! i) -> is_Some (billingRecords w' !! i).
Proof.
  intros Hsteps.
  assert (Hlen : length (billingRecords w) ≤ length (billingRecords w')).
  { induction Hsteps as [w|w w1 w2 Hstep _ IH]; [done|].
    etrans; [by eapply step_length|done]. }
  split; [done|]. intros i Hi. apply lookup_lt_is_Some in Hi.
  apply lookup_lt_is_Some. lia.
Qed.


(** An invariant of single records is an invariant of the store when
    creation establishes it and the three kinds of update keep it. *)
Lemma step_invariant (P : obj -> Prop) allowed w w' :
  (∀ imageId file now, P (initial_record imageId file now)) ->
  (∀ r d now text, P r -> P (completed_record r d now text)) ->
  (∀ r now, P r -> P (failed_record r now)) ->
  (∀ r body now, allowed body -> P r ->
                 P (<["updatedAt" := VStr now]> (spread r body))) ->
  step allowed w w' ->
  Forall P (billingRecords w) -> Forall P (billingRecords w').
Proof.
  intros Hinit Hdone Hfail Hput Hstep Hall.
  destruct Hstep as [[f|] imageId now w|env id p w|id body now w Hbody|env w];
    simpl.
  - apply Forall_app. split; [done|]. by apply Forall_singleton.
  - done.
  - destruct (process_records env id p w)
      as [->|[->|(d & text & [->| ->])]]; [done|..];
      repeat apply store_update_Forall; auto.
  - unfold putRecord. destruct (findIndex _ _); simpl; [|done].
    apply Forall_alter; auto.
  - by rewrite export_keeps_records.
Qed.

(** X9: as long as no update names [status], every record of every
    reachable state has one of the statuses "processing", "completed"
    and "error". *)
Theorem status_always_known w r :
  reachable keeps_status w -> r ∈ billingRecords w -> known_status r.
Proof.
  intros (w0 & Hw0 & Hsteps) Hr.
  assert (Hall0 : Forall known_status (billingRecords w0))
    by (by rewrite Hw0).
  clear Hw0. induction Hsteps as [w0|w0 w1 w2 Hstep _ IH].
  - rewrite List.Forall_forall in Hall0. by apply Hall0, list_elem_of_In.
  - apply IH; [done|]. eapply step_invariant; [..|exact Hstep|exact Hall0].
    + intros. left. unfold initial_record. by simplify_map_eq.
    + intros. right; left. unfold completed_record. by simplify_map_eq.
    + intros. right; right. unfold failed_record. by simplify_map_eq.
    + intros r0 body now Hbody Hk. unfold known_status, spread in *.
      rewrite lookup_insert_ne by done. by rewrite lookup_union_r.
Qed.

End StepProperties.

(** ** The shape of the extractor's result *)

Module ExtractShape.
Import Spec ExtractFacts.

Ltac by_key k key :=
  destruct (decide (k = key)) as [->|?]; [by simplify_map_eq|].

(** The extractor returns an object with exactly the eight properties of
    [billing_object]. *)
Lemma extract_shape text :
  ∃ invoiceNumber vendor date totalAmount items,
    extractBillingData text
    = Some (billing_object invoiceNumber vendor date totalAmount items text).
Proof.
  unfold extractBillingData.
  destruct (items_loop_total text (S (length text)) 0 []) as [items ->];
    [lia..|].
  set (inv := Regex.exec true Patterns.invoicePattern text).
  set (dt := Regex.exec false Patterns.datePattern text).
  set (am := Regex.exec true Patterns.amountPattern text).
  set (ls := List.filter meaningful _).
  exists (match inv with Some m => Regex.group 1 m | None => [] end),
         (match ls with l :: _ => l | [] => [] end),
         (match dt with Some m => Regex.whole m | None => [] end),
         (match am with Some m => Parse.parseFloat (Regex.group 1 m)
                   | None => num_of_Z 0 end), items.
  f_equal. apply map_eq. intros k. unfold billing_object.
  destruct inv, dt, am, ls; simpl;
    by_key k "items"; by_key k "vendor"; by_key k "totalAmount";
    by_key k "date"; by_key k "invoiceNumber"; by_key k "currency";
    by_key k "rawText"; by_key k "confidence"; by simplify_map_eq.
Qed.

End ExtractShape.

(** ** Pipeline runs *)

Section PipelineProperties.
Context `{Platform}.
Import Spec StoreFacts ExtractShape.

Ltac frame_files Hp :=
  rewrite ?elem_of_difference, ?elem_of_union, ?elem_of_singleton;
  split; [intros H'; tauto | intros H'; tauto].

Ltac run_steps :=
  unfold processImageAsync, try_catch, bind, preprocessImage, recognize,
    extract, existsSync, removeSync, update_record, update, gets, ret,
    throw, hang; simpl.

(** The state after a run in which both [sharp] and the OCR engine
    succeed. *)
Lemma success_run id imagePath w text conf rt t1 t2 :
  ∃ invoiceNumber vendor date totalAmount items,
    let d := billing_object invoiceNumber vendor date totalAmount items text in
    let out := outputPath imagePath in
    let completed :=
      store_update id
        (fun old => completed_record old
           (<["confidence" := VNum (conf / Q2Qc 100)%Qc]> d) t1 text)
        (billingRecords w) in
    extractBillingData text = Some d
    ∧ processImageAsync (RunEnv SharpOk (OcrOk text conf) rt t1 t2)
                        id imagePath w
      = (Returned tt,
         if rt then
           World (store_update id (fun old => failed_record old t2) completed)
                 ({[out]} ∪ files w)
                 (calls w ++ [CallSharp imagePath out; CallRecognize out;
                              CallRemove out])
         else
           World completed (({[out]} ∪ files w) ∖ {[out]})
                 (calls w ++ [CallSharp imagePath out; CallRecognize out;
                              CallRemove out])).
Proof.
  destruct (extract_shape text) as (inv & v & dt & tot & items & Hd).
  exists inv, v, dt, tot, items. split; [done|].
  run_steps. rewrite Hd. simpl.
  rewrite bool_decide_eq_true_2
    by (by apply elem_of_union_l, elem_of_singleton).
  simpl. destruct rt; simpl; unfold with_records, with_files, logged; simpl;
    by rewrite <- !app_assoc.
Qed.

(** The state after a run in which [sharp] or the OCR engine fails. *)
Lemma failure_run env id imagePath w :
  sharp_result env ≠ SharpOk ∨ ocr_result env = OcrThrows ->
  let run := processImageAsync env id imagePath w in
  run.1 = Returned tt
  ∧ billingRecords run.2
    = store_update id (fun old => failed_record old (failed_at env))
                   (billingRecords w)
  ∧ (∀ p, p ≠ outputPath imagePath -> p ∈ files run.2 ↔ p ∈ files w).
Proof.
  intros Hfail.
  destruct env as [[|wrote] [text conf|] rt t1 t2]; simpl in *.
  - destruct Hfail as [[]|]; done.
  - run_steps. split_and!; [done..|]. intros p Hp.
    frame_files Hp.
  - run_steps. split_and!; [done..|]. intros p Hp.
    destruct wrote; [|done].
    frame_files Hp.
  - run_steps. split_and!; [done..|]. intros p Hp.
    destruct wrote; [|done].
    frame_files Hp.
Qed.

(** [r.id === recordId] *)
Lemma has_id_true id (r : obj) :
  has_id id r = true ↔ r !! "id" = Some (VStr id).
Proof.
  unfold has_id, field_is.
  destruct (r !! "id") as [[| | | |s| |]|]; try (split; [done|by intros [=]]).
  rewrite bool_decide_eq_true. split; [by intros ->|by intros [= ->]].
Qed.

Lemma findIndex_first p (l : list obj) : ∀ i r,
  l !! i = Some r -> p r = true ->
  (∀ j r0, j < i -> l !! j = Some r0 -> p r0 = false) ->
  findIndex p l = Some i.
Proof.
  induction l as [|x l IH]; intros i r Hr Hp Hbefore; [done|]. simpl.
  destruct i as [|i].
  - injection Hr as ->. by rewrite Hp.
  - rewrite (Hbefore 0 x) by (done || lia).
    rewrite (IH i r Hr Hp); [done|].
    intros j r0 Hj Hr0. apply (Hbefore (S j) r0); [lia|done].
Qed.

(** C6, amended: when preprocessing or OCR fails in a run, and a record
    is stored under the run's id at that moment, the run returns, sets
    the status of the first such record to "error" and its
    [extractedAt] to the current time, and leaves every other field of
    it and every other record as they were; so the extracted fields
    still hold their creation defaults unless an update changed them.
    Each stage has been called at most once. *)
Theorem failed_run_marks_stored_record env id imagePath w i r :
  sharp_result env ≠ SharpOk ∨ ocr_result env = OcrThrows ->
  billingRecords w !! i = Some r ->
  r !! "id" = Some (VStr id) ->
  (∀ j r0, j < i -> billingRecords w !! j = Some r0 ->
           r0 !! "id" ≠ Some (VStr id)) ->
  let run := processImageAsync env id imagePath w in
  let out := outputPath imagePath in
  run.1 = Returned tt
  ∧ (∃ r', billingRecords run.2 !! i = Some r'
      ∧ r' !! "status" = Some (VStr (js "error"))
      ∧ r' !! "extractedAt" = Some (VStr (failed_at env))
      ∧ ∀ k, k ≠ "status" -> k ≠ "extractedAt" -> r' !! k = r !! k)
  ∧ length (billingRecords run.2) = length (billingRecords w)
  ∧ (∀ j, j ≠ i -> billingRecords run.2 !! j = billingRecords w !! j)
  ∧ (calls run.2 = calls w ++ [CallSharp imagePath out]
     ∨ calls run.2 = calls w ++ [CallSharp imagePath out;
                                 CallRecognize out]).
Proof.
  intros Hfail Hr Hid Hbefore.
  assert (Hi : findIndex (has_id id) (billingRecords w) = Some i).
  { apply (findIndex_first _ _ i r Hr); [by apply has_id_true|].
    intros j r0 Hj Hr0. apply not_true_is_false. intros Hp.
    by apply (Hbefore j r0 Hj Hr0), has_id_true. }
  assert (Hupd : ∀ f, store_update id f (billingRecords w)
                      = alter f i (billingRecords w)).
  { intros f. unfold store_update. by rewrite Hi. }
  assert (Hrec : ∀ now,
    ∃ r', alter (fun old => failed_record old now) i (billingRecords w) !! i
          = Some r'
      ∧ r' !! "status" = Some (VStr (js "error"))
      ∧ r' !! "extractedAt" = Some (VStr now)
      ∧ ∀ k, k ≠ "status" -> k ≠ "extractedAt" -> r' !! k = r !! k).
  { intros now. exists (failed_record r now).
    rewrite list_lookup_alter_eq, Hr. unfold failed_record.
    split_and!; [done|by simplify_map_eq|by simplify_map_eq|].
    intros k Hs He. by rewrite !lookup_insert_ne. }
  assert (Hother : ∀ (f : obj -> obj) j, j ≠ i ->
    alter f i (billingRecords w) !! j = billingRecords w !! j).
  { intros f j Hj. by apply list_lookup_alter_ne. }
  destruct env as [[|wrote] [text conf|] rt t1 t2]; simpl in *.
  - destruct Hfail as [[]|]; done.
  - run_steps. rewrite Hupd.
    split_and!; [done|apply Hrec|apply length_alter|apply Hother|].
    right. by rewrite <- app_assoc.
  - run_steps. rewrite Hupd.
    split_and!; [done|apply Hrec|apply length_alter|apply Hother|by left].
  - run_steps. rewrite Hupd.
    split_and!; [done|apply Hrec|apply length_alter|apply Hother|by left].
Qed.

Lemma billing_object_no_id invoiceNumber vendor date totalAmount items text conf :
  (<["confidence" := VNum conf]>
     (billing_object invoiceNumber vendor date totalAmount items text))
    !! "id" = None.
Proof. unfold billing_object. by simplify_map_eq. Qed.

Lemma findIndex_alter p f i (l : list obj) :
  (∀ r, p (f r) = p r) -> findIndex p (alter f i l) = findIndex p l.
Proof.
  intros Hf. revert i. induction l as [|x l IH]; intros i; [by destruct i|].
  destruct i as [|i]; simpl; [by rewrite Hf|].
  change (list_alter f i l) with (alter f i l). by rewrite IH.
Qed.

Lemma has_id_completed id old d now text :
  d !! "id" = None ->
  has_id id (completed_record old d now text) = has_id id old.
Proof.
  intros Hd. unfold has_id, field_is, completed_record, spread.
  rewrite !lookup_insert_ne by done. by rewrite lookup_union_r.
Qed.

Lemma store_update_other id f (recs : list obj) j :
  findIndex (has_id id) recs ≠ Some j ->
  store_update id f recs !! j = recs !! j.
Proof.
  intros Hj. unfold store_update.
  destruct (findIndex _ _) as [i|]; [|done].
  apply list_lookup_alter_ne. congruence.
Qed.

Lemma findIndex_store_update id id' f (recs : list obj) :
  (∀ r, has_id id (f r) = has_id id r) ->
  findIndex (has_id id) (store_update id' f recs)
  = findIndex (has_id id) recs.
Proof.
  intros Hf. unfold store_update.
  destruct (findIndex (has_id id') recs); [|done]. by apply findIndex_alter.
Qed.

(** X10: a run touches at most one record, the first one with the
    run's identifier: whatever the libraries do, every other record is
    unchanged and the store keeps its length. *)
Theorem run_changes_one_record env id imagePath w :
  let after := billingRecords (processImageAsync env id imagePath w).2 in
  length after = length (billingRecords w)
  ∧ ∀ j, findIndex (has_id id) (billingRecords w) ≠ Some j ->
         after !! j = billingRecords w !! j.
Proof.
  assert (Hfailure : sharp_result env ≠ SharpOk ∨ ocr_result env = OcrThrows ->
    let after := billingRecords (processImageAsync env id imagePath w).2 in
    length after = length (billingRecords w)
    ∧ ∀ j, findIndex (has_id id) (billingRecords w) ≠ Some j ->
           after !! j = billingRecords w !! j).
  { intros Hfail.
    destruct (failure_run env id imagePath w Hfail) as (_ & E & _).
    simpl. rewrite E.
    split; [apply store_update_length|]. intros j. apply store_update_other. }
  destruct env as [sr oc rt t1 t2].
  destruct sr as [|wrote]; [destruct oc as [text conf|]|];
    [|apply Hfailure; by right|apply Hfailure; by left].
  destruct (success_run id imagePath w text conf rt t1 t2)
    as (inv & v & dt & tot & items & _ & E).
  simpl. rewrite E. destruct rt; simpl.
  - rewrite !store_update_length. split; [done|]. intros j Hj.
    rewrite store_update_other; [by apply store_update_other|].
    rewrite findIndex_store_update; [done|].
    intros r. apply has_id_completed, billing_object_no_id.
  - split; [apply store_update_length|]. intros j.
    apply store_update_other.
Qed.


Lemma run_files_frame env id imagePath w p :
  p ≠ outputPath imagePath ->
  p ∈ files (processImageAsync env id imagePath w).2 ↔ p ∈ files w.
Proof.
  intros Hp.
  assert (Hfailure : sharp_result env ≠ SharpOk ∨ ocr_result env = OcrThrows ->
    p ∈ files (processImageAsync env id imagePath w).2 ↔ p ∈ files w).
  { intros Hfail.
    destruct (failure_run env id imagePath w Hfail) as (_ & _ & Hfiles).
    by apply Hfiles. }
  destruct env as [sr oc rt t1 t2].
  destruct sr as [|wrote]; [destruct oc as [text conf|]|];
    [|apply Hfailure; by right|apply Hfailure; by left].
  destruct (success_run id imagePath w text conf rt t1 t2)
    as (inv & v & dt & tot & items & _ & E).
  rewrite E. destruct rt; simpl; frame_files Hp.
Qed.

(** X12: a run creates, removes or changes no file other than its own
    intermediate image. *)
Theorem run_touches_only_intermediate env id imagePath w p :
  p ≠ outputPath imagePath ->
  p ∈ files (processImageAsync env id imagePath w).2 ↔ p ∈ files w.
Proof. apply run_files_frame. Qed.

Lemma starts_with_split pat s :
  starts_with pat s = true -> s = pat ++ skipn (length pat) s.
Proof.
  revert s. induction pat as [|a pat IH]; intros [|b s]; simpl; try done.
  intros Hs. apply andb_prop in Hs as [Hab Hs].
  apply N.eqb_eq in Hab. subst b. f_equal. by apply IH.
Qed.

(** Replacing the first occurrence of a pattern that occurs changes the
    string, unless the replacement is the pattern itself. *)
Lemma replace_first_changes pat rep s :
  contains pat s = true -> pat ≠ rep -> replace_first pat rep s ≠ s.
Proof.
  intros Hin Hne. induction s as [|c s IH].
  - simpl in *. destruct pat as [|a pat]; [|done].
    simpl. rewrite app_nil_r. intros ->. done.
  - simpl in *. destruct (starts_with pat (c :: s)) eqn:Hs.
    + intros E. apply Hne.
      rewrite (starts_with_split _ _ Hs) in E at 2.
      by apply app_inv_tail in E.
    + simpl in Hin. intros [= E]. by apply IH.
Qed.

(** X13: the run never removes the uploaded original: when the
    extension reported for the upload path occurs in that path and is
    not "_processed.png" itself, the intermediate path differs from the
    upload path and the original is still on disk after the run. *)
Theorem original_survives_run env id imagePath w :
  contains (extname imagePath) imagePath = true ->
  extname imagePath ≠ js "_processed.png" ->
  imagePath ∈ files w ->
  outputPath imagePath ≠ imagePath
  ∧ imagePath ∈ files (processImageAsync env id imagePath w).2.
Proof.
  intros Hin Hext Horig.
  assert (Hne : outputPath imagePath ≠ imagePath)
    by (by apply replace_first_changes).
  split; [done|]. by apply run_files_frame.
Qed.

(** X14: when preprocessing, OCR and the clean-up all succeed for a
    freshly uploaded record, the run returns; the record is "completed",
    carries the extracted fields, the raw text and the engine's
    confidence divided by 100, keeps its identity fields, and the
    intermediate image is gone. *)
Theorem successful_run_completes w file imageId now text conf t1 t2 :
  Forall (fun r => has_id imageId r = false) (billingRecords w) ->
  let env := RunEnv SharpOk (OcrOk text conf) false t1 t2 in
  let uploaded := (upload (Some file) imageId now w).2 in
  let run := processImageAsync env imageId (path file) uploaded in
  ∃ d r,
    extractBillingData text = Some d
    ∧ run.1 = Returned tt
    ∧ billingRecords run.2 = billingRecords w ++ [r]
    ∧ r !! "status" = Some (VStr (js "completed"))
    ∧ r !! "extractedAt" = Some (VStr t1)
    ∧ r !! "rawText" = Some (VStr text)
    ∧ r !! "confidence" = Some (VNum (conf / Q2Qc 100)%Qc)
    ∧ r !! "invoiceNumber" = d !! "invoiceNumber"
    ∧ r !! "vendor" = d !! "vendor"
    ∧ r !! "date" = d !! "date"
    ∧ r !! "totalAmount" = d !! "totalAmount"
    ∧ r !! "currency" = d !! "currency"
    ∧ r !! "items" = d !! "items"
    ∧ r !! "id" = Some (VStr imageId)
    ∧ r !! "originalFilename" = Some (VStr (originalname file))
    ∧ r !! "imagePath" = Some (VStr (path file))
    ∧ r !! "uploadedAt" = Some (VStr now)
    ∧ outputPath (path file) ∉ files run.2.
Proof.
  intros Hfresh.
  pose proof (has_id_initial_record imageId file now) as Hid.
  destruct (success_run imageId (path file)
              (upload (Some file) imageId now w).2 text conf false t1 t2)
    as (inv & v & dt & tot & items & Hd & E).
  simpl in E |- *. rewrite E. simpl.
  unfold store_update. rewrite (findIndex_fresh _ _ _ Hfresh Hid).
  replace (length (billingRecords w))
    with (length (billingRecords w) + 0) by lia.
  rewrite alter_app_r. simpl.
  eexists _, _. split; [exact Hd|]. split; [done|]. split; [reflexivity|].
  unfold completed_record, spread, billing_object, initial_record.
  split_and!;
    try (rewrite ?lookup_insert_ne by done; rewrite ?lookup_insert_eq;
         first [done
               | apply lookup_union_Some_l; by simplify_map_eq
               | rewrite lookup_union_r; by simplify_map_eq]).
  intros Hout. apply elem_of_difference in Hout as [_ Hout].
  by apply Hout, elem_of_singleton.
Qed.

(** X15: when the removal of the intermediate image throws after a
    successful extraction, the run still returns, but the record ends
    with status "error" while carrying the raw text, and the
    intermediate image stays on disk. *)
Theorem failed_cleanup_marks_error w file imageId now text conf t1 t2 :
  Forall (fun r => has_id imageId r = false) (billingRecords w) ->
  let env := RunEnv SharpOk (OcrOk text conf) true t1 t2 in
  let uploaded := (upload (Some file) imageId now w).2 in
  let run := processImageAsync env imageId (path file) uploaded in
  ∃ r,
    run.1 = Returned tt
    ∧ billingRecords run.2 = billingRecords w ++ [r]
    ∧ r !! "status" = Some (VStr (js "error"))
    ∧ r !! "extractedAt" = Some (VStr t2)
    ∧ r !! "rawText" = Some (VStr text)
    ∧ outputPath (path file) ∈ files run.2.
Proof.
  intros Hfresh.
  pose proof (has_id_initial_record imageId file now) as Hid.
  destruct (success_run imageId (path file)
              (upload (Some file) imageId now w).2 text conf true t1 t2)
    as (inv & v & dt & tot & items & Hd & E).
  simpl in E |- *. rewrite E. simpl.
  assert (Hupd : ∀ f r0,
    has_id imageId r0 = true ->
    store_update imageId f (billingRecords w ++ [r0])
    = billingRecords w ++ [f r0]).
  { intros f r0 Hr0. unfold store_update.
    rewrite (findIndex_fresh _ _ _ Hfresh Hr0).
    replace (length (billingRecords w))
      with (length (billingRecords w) + 0) by lia.
    by rewrite alter_app_r. }
  rewrite (Hupd _ _ Hid), Hupd.
  - eexists. split; [done|]. split; [reflexivity|].
    unfold failed_record, completed_record. split_and!; try by simplify_map_eq.
    by apply elem_of_union_l, elem_of_singleton.
  - rewrite has_id_completed; [done|apply billing_object_no_id].
Qed.

End PipelineProperties.

(** ** Export *)

Section ExportProperties.
Context `{Platform}.
Import Spec StoreFacts.

Lemma or_else_truthy v d :
  truthy (Some d) = true -> truthy (Some (or_else v d)) = true.
Proof.
  intros Hd. unfold or_else. destruct v as [x|]; [|done].
  by destruct (truthy (Some x)) eqn:Hx.
Qed.

Lemma or_else_zero v :
  truthy (Some (or_else v (num_of_Z 0))) = true
  ∨ or_else v (num_of_Z 0) = num_of_Z 0.
Proof.
  unfold or_else. destruct v as [x|]; [|by right].
  destruct (truthy (Some x)) eqn:Hx; [by left|by right].
Qed.

(** X16: the summary sheet has no blank cell in its text columns: in
    the row built for a record, the invoice number, vendor, date,
    currency and status cells hold a value that is neither null nor
    empty, and the total amount cell holds such a value or the number
    0.  The row is built exactly when the record's processed date can
    be formatted. *)
Theorem summary_cells_never_blank record summary :
  summary_row record = Some summary ->
  is_Some (toLocaleDateString (record !! "extractedAt"))
  ∧ (∀ column,
      column ∈ ["Invoice Number"; "Vendor"; "Date"; "Currency"; "Status"] ->
      ∃ v, cell column summary = Some v
        ∧ truthy (Some v) = true)
  ∧ ∃ v, cell "Total Amount" summary = Some v
      ∧ (truthy (Some v) = true ∨ v = num_of_Z 0).
Proof.
  unfold summary_row.
  destruct (toLocaleDateString _) as [processed|]; [|done].
  simpl. intros [= <-]. split_and!; [done| |].
  - intros column Hc. rewrite !elem_of_cons, elem_of_nil in Hc.
    destruct Hc as [->|[->|[->|[->|[->|[]]]]]]; simpl;
      eexists; (split; [reflexivity|]); by apply or_else_truthy.
  - simpl. eexists. split; [reflexivity|]. apply or_else_zero.
Qed.

Lemma item_row_None record item :
  item_row record item = None ↔ item = VNull.
Proof. by destruct item. Qed.

Lemma record_rows_null record items :
  record !! "items" = Some (VArr items) -> VNull ∈ items ->
  record_rows record = None.
Proof.
  intros Hitems Hnull. unfold record_rows. rewrite Hitems.
  destruct items as [|item items]; [by apply elem_of_nil in Hnull|].
  apply mapM_None. apply Exists_exists.
  exists VNull. split; [by apply list_elem_of_In|]. by apply item_row_None.
Qed.


(** X18: an export is answered with the download exactly when there is
    a completed record, the summary rows and the line-item rows can all
    be built, the workbook is written and the download itself reports
    no error.  The download is then that of
    "billing_export_<date>_<millis>.xlsx" in the exports directory; the
    file exists, the summary sheet has one row per completed record,
    and the records are untouched. *)
Theorem export_downloads env w :
  let completed := List.filter (has_status "completed") (billingRecords w) in
  let filename := export_filename env in
  let filepath := exportsDir ++ js "/" ++ filename in
  ((∃ p n, (exportRecords env w).1 = Download p n)
   ↔ completed ≠ []
     ∧ is_Some (mapM summary_row completed)
     ∧ is_Some (detailed_rows completed [])
     ∧ write_throws env = false
     ∧ download_fails env = false)
  ∧ ∀ summary rows,
      completed ≠ [] ->
      mapM summary_row completed = Some summary ->
      detailed_rows completed [] = Some rows ->
      write_throws env = false ->
      download_fails env = false ->
      exportRecords env w
      = (Download filepath filename,
         World (billingRecords w) ({[filepath]} ∪ files w)
               (calls w ++ [CallWriteFile [("Summary", summary);
                                           ("Line Items", rows)] filepath]))
      ∧ length summary = length completed.
Proof.
  intros completed filename filepath.
  assert (Hrun : ∀ summary rows,
    completed ≠ [] ->
    mapM summary_row completed = Some summary ->
    detailed_rows completed [] = Some rows ->
    write_throws env = false ->
    download_fails env = false ->
    exportRecords env w
    = (Download filepath filename,
       World (billingRecords w) ({[filepath]} ∪ files w)
             (calls w ++ [CallWriteFile [("Summary", summary);
                                         ("Line Items", rows)] filepath]))).
  { intros summary rows Hsome Hsummary Hrows Hwrite Hdown.
    unfold exportRecords, generateExcelFile. fold completed.
    destruct completed as [|r l] eqn:E; [done|]. simpl length. simpl Nat.eqb.
    cbv iota. rewrite Hsummary, Hrows. unfold bind, update, ret. simpl.
    by rewrite Hwrite, Hdown. }
  split.
  - split.
    + intros (p & n & Hanswer). revert Hanswer.
      unfold exportRecords, generateExcelFile. fold completed.
      destruct completed as [|r l] eqn:E; [done|]. simpl length.
      simpl Nat.eqb. cbv iota.
      destruct (mapM summary_row (r :: l)) as [summary|]; [|done].
      destruct (detailed_rows (r :: l) []) as [rows|]; [|done].
      unfold bind, update, throw, ret. simpl.
      destruct (write_throws env); [done|]. simpl.
      destruct (download_fails env); [done|]. by intros _.
    + intros (Hsome & [summary Hsummary] & [rows Hrows] & Hwrite & Hdown).
      exists filepath, filename.
      by rewrite (Hrun summary rows Hsome Hsummary Hrows Hwrite Hdown).
  - intros summary rows Hsome Hsummary Hrows Hwrite Hdown.
    split; [by apply Hrun|].
    symmetry. by eapply length_mapM.
Qed.

(** X19: up to its response, no export changes a record or removes a
    file, and the only file an export can create is its own workbook.
    Nothing at all changes when a summary row or a line-item row cannot
    be built.  When the workbook was written and the download then
    reports an error, the answer is 500 "Failed to download file" and
    the workbook is on disk. *)
Theorem export_touches_only_its_workbook env w :
  let completed := List.filter (has_status "completed") (billingRecords w) in
  let filepath := exportsDir ++ js "/" ++ export_filename env in
  billingRecords (exportRecords env w).2 = billingRecords w
  ∧ (∀ p, p ∈ files w -> p ∈ files (exportRecords env w).2)
  ∧ (∀ p, p ∈ files (exportRecords env w).2 -> p = filepath ∨ p ∈ files w)
  ∧ (mapM summary_row completed = None ∨ detailed_rows completed [] = None ->
     (exportRecords env w).2 = w)
  ∧ ((exportRecords env w).1
     = Json 500 (error_body "Failed to download file")
     ↔ completed ≠ []
       ∧ is_Some (mapM summary_row completed)
       ∧ is_Some (detailed_rows completed [])
       ∧ write_throws env = false
       ∧ download_fails env = true)
  ∧ ((exportRecords env w).1
     = Json 500 (error_body "Failed to download file") ->
     filepath ∈ files (exportRecords env w).2).
Proof.
  intros completed filepath.
  split; [apply export_keeps_records|].
  unfold exportRecords, generateExcelFile. fold completed. fold filepath.
  destruct completed as [|r l] eqn:E.
  { simpl. split_and!; try done.
    - by right.
    - split; [done|]. by intros [? _]. }
  simpl length. simpl Nat.eqb. cbv iota.
  destruct (mapM summary_row (r :: l)) as [summary|].
  2:{ simpl. split_and!; try done.
      - by right.
      - split; [done|]. by intros (_ & [? ?] & _). }
  destruct (detailed_rows (r :: l) []) as [rows|].
  2:{ simpl. split_and!; try done.
      - by right.
      - split; [done|]. by intros (_ & _ & [? ?] & _). }
  unfold bind, update, throw, ret. simpl.
  destruct (write_throws env); simpl.
  - split_and!; try done.
    + intros p Hp. destruct (partial_write env); [|done].
      by apply elem_of_union_r.
    + intros p Hp. destruct (partial_write env); [|by right].
      apply elem_of_union in Hp as [Hp|Hp]; [|by right].
      left. by apply elem_of_singleton in Hp.
    + by intros [|].
    + split; [done|]. by intros (_ & _ & _ & ? & _).
  - destruct (download_fails env); simpl.
    + split_and!; try done.
      * intros p Hp. by apply elem_of_union_r.
      * intros p Hp. apply elem_of_union in Hp as [Hp|Hp]; [|by right].
        left. by apply elem_of_singleton in Hp.
      * by intros [|].
      * intros _. by apply elem_of_union_l, elem_of_singleton.
    + split_and!; try done.
      * intros p Hp. by apply elem_of_union_r.
      * intros p Hp. apply elem_of_union in Hp as [Hp|Hp]; [|by right].
        left. by apply elem_of_singleton in Hp.
      * by intros [|].
      * split; [done|]. by intros (_ & _ & _ & _ & ?).
Qed.

Lemma detailed_rows_throws before record after acc :
  record_rows record = None ->
  detailed_rows (before ++ record :: after) acc = None.
Proof.
  intros Hrow. revert acc.
  induction before as [|x before IH]; intros acc; simpl.
  - by rewrite Hrow.
  - by destruct (record_rows x).
Qed.

(** X20: a single completed record whose item array contains null makes
    the whole export fail: the answer is 500 "Failed to export data",
    and nothing is written. *)
Theorem null_item_fails_export env w record items :
  record ∈ billingRecords w ->
  has_status "completed" record = true ->
  record !! "items" = Some (VArr items) ->
  VNull ∈ items ->
  exportRecords env w = (Json 500 (error_body "Failed to export data"), w).
Proof.
  intros Hin Hdone Hitems Hnull.
  assert (Hc : record ∈ List.filter (has_status "completed") (billingRecords w)).
  { apply list_elem_of_In, filter_In. split; [by apply list_elem_of_In|done]. }
  apply list_elem_of_split in Hc as (before & after & Hsplit).
  pose proof (record_rows_null record items Hitems Hnull) as Hrow.
  unfold exportRecords, generateExcelFile. rewrite Hsplit.
  rewrite length_app. simpl length.
  replace (length before + S (length after) =? 0) with false
    by (symmetry; apply Nat.eqb_neq; lia).
  destruct (mapM summary_row _); [|done].
  by rewrite (detailed_rows_throws _ _ _ _ Hrow).
Qed.

End ExportProperties.

(** ** Captures and matched text *)

Module CaptureFacts.
Import Regex Spec RegexFacts.

(** A capture present after a run was there before or is a word of a
    group with that number. *)
Lemma run_caps icase r : ∀ st st' n w,
  In st' (run icase r st) -> assoc n (caps st') = Some w ->
  assoc n (caps st) = Some w ∨ group_lang icase r n w.
Proof.
  induction r as [|cl|cl min max greedy|r1 IH1 r2 IH2|r1 IH1 r2 IH2
                 |m r IH| |]; intros st st' n w; simpl.
  - intros [<-|[]]. auto.
  - destruct (rest st) as [|c s]; [intros []|].
    destruct (cls_match icase cl c); [|intros []]. intros [<-|[]]. auto.
  - rewrite in_map_iff. intros (e & <- & _). auto.
  - rewrite in_flat_map. intros (mid & H1 & H2) Hw.
    destruct (IH2 _ _ _ _ H2 Hw) as [Hmid|?]; [|auto].
    destruct (IH1 _ _ _ _ H1 Hmid); auto.
  - rewrite in_app_iff. intros [H1|H2] Hw.
    + destruct (IH1 _ _ _ _ H1 Hw); auto.
    + destruct (IH2 _ _ _ _ H2 Hw); auto.
  - rewrite in_map_iff. intros (mid & <- & Hmid). simpl.
    destruct (n =? m) eqn:E.
    + intros [= <-]. apply Nat.eqb_eq in E. subst. right. left.
      split; [done|].
      destruct (run_sound _ _ _ _ Hmid) as (u & Hu & Hp & Hl).
      rewrite Hu, Hp.
      replace (pos st + length u - pos st) with (length u + 0) by lia.
      by rewrite take_app_add, take_0, app_nil_r.
    + intros Hw. destruct (IH _ _ _ _ Hmid Hw); auto.
  - destruct (pos st =? 0); [|intros []]. intros [<-|[]]. auto.
  - destruct (rest st); [|intros []]. intros [<-|[]]. auto.
Qed.

(** A run never drops a capture. *)
Lemma run_keeps icase r : ∀ st st' n,
  In st' (run icase r st) -> is_Some (assoc n (caps st)) ->
  is_Some (assoc n (caps st')).
Proof.
  induction r as [|cl|cl min max greedy|r1 IH1 r2 IH2|r1 IH1 r2 IH2
                 |m r IH| |]; intros st st' n; simpl.
  - by intros [<-|[]].
  - destruct (rest st) as [|c s]; [intros []|].
    destruct (cls_match icase cl c); [|intros []]. by intros [<-|[]].
  - rewrite in_map_iff. by intros (e & <- & _).
  - rewrite in_flat_map. intros (mid & H1 & H2) Hn. eauto.
  - rewrite in_app_iff. intros [H1|H2] Hn; eauto.
  - rewrite in_map_iff. intros (mid & <- & Hmid) Hn. simpl.
    destruct (n =? m); eauto.
  - destruct (pos st =? 0); [|intros []]. by intros [<-|[]].
  - destruct (rest st); [|intros []]. by intros [<-|[]].
Qed.

(** A group that takes part in every match is set after a run. *)
Lemma run_sets icase r n : ∀ st st',
  sets_group r n = true -> In st' (run icase r st) ->
  is_Some (assoc n (caps st')).
Proof.
  induction r as [|cl|cl min max greedy|r1 IH1 r2 IH2|r1 IH1 r2 IH2
                 |m r IH| |]; intros st st'; simpl; try done.
  - intros Hs. rewrite in_flat_map. intros (mid & H1 & H2).
    apply orb_prop in Hs as [Hs|Hs]; [|eauto].
    eapply run_keeps; eauto.
  - intros Hs. apply andb_prop in Hs as [Hs1 Hs2].
    rewrite in_app_iff. intros [?|?]; eauto.
  - intros Hs. rewrite in_map_iff. intros (mid & <- & Hmid). simpl.
    destruct (n =? m) eqn:E; [eauto|].
    rewrite Nat.eqb_sym, E in Hs. simpl in Hs. eauto.
Qed.

(** A match found by a search: the text it matched lies in the subject
    and is a word of the pattern; every group that always takes part
    holds a word of that group. *)
Lemma search_match icase r : ∀ s p m,
  search icase r p s = Some m ->
  (∃ pre post, s = pre ++ whole m ++ post ∧ lang icase r (whole m))
  ∧ ∀ n, sets_group r n = true -> group_lang icase r n (group n m).
Proof.
  assert (Hhere : ∀ s p st' l,
    run icase r (MState p s []) = st' :: l ->
    (∃ post, s = firstn (pos st' - p) s ++ post
             ∧ lang icase r (firstn (pos st' - p) s))
    ∧ ∀ n, sets_group r n = true ->
           group_lang icase r n (default [] (assoc n (caps st')))).
  { intros s p st' l E.
    assert (Hin : In st' (run icase r (MState p s []))) by (rewrite E; by left).
    destruct (run_sound _ _ _ _ Hin) as (w & Hs & Hp & Hl). simpl in *.
    replace (pos st' - p) with (length w + 0) by lia.
    rewrite Hs, take_app_add, take_0, app_nil_r. split; [eauto|].
    intros n Hn. destruct (run_sets icase r n _ _ Hn Hin) as [u Hu].
    rewrite Hu. simpl.
    by destruct (run_caps _ _ _ _ _ _ Hin Hu) as [?|?]. }
  induction s as [|c s IH]; intros p m; simpl.
  - destruct (run icase r (MState p [] [])) as [|st' l] eqn:E; [done|].
    intros [= <-]. unfold group. simpl.
    destruct (Hhere _ _ _ _ E) as [(post & Hs & Hl) Hg].
    split; [|done]. exists [], post. eauto.
  - destruct (run icase r (MState p (c :: s) [])) as [|st' l] eqn:E.
    + intros Hm. destruct (IH _ _ Hm) as [(pre & post & -> & Hl) Hg].
      split; [|done]. by exists (c :: pre), post.
    + intros [= <-]. unfold group. simpl.
      destruct (Hhere _ _ _ _ E) as [(post & Hs & Hl) Hg].
      split; [|done]. exists [], post. eauto.
Qed.

Lemma exec_from_match icase r from text m :
  exec_from icase r from text = Some m ->
  ∀ n, sets_group r n = true -> group_lang icase r n (group n m).
Proof.
  unfold exec_from. destruct (length text <? from); [done|].
  intros Hm. by apply search_match in Hm as [_ Hg].
Qed.

End CaptureFacts.

(** ** What the extractor puts into the fields *)

Module ExtractProperties.
Import Chars Regex Spec RegexFacts ExtractFacts CaptureFacts.

(** The words of the one group with the number asked for. *)
Ltac pick_group H :=
  simpl in H;
  repeat match type of H with
         | False => destruct H
         | _ ∨ _ => destruct H as [H|H]
         | _ = _ ∧ _ => destruct H as [? H]; try discriminate
         end.

Lemma digits_spec : ∀ s acc n z n' s',
  Parse.digits acc n s = (z, n', s') ->
  n ≤ n' ∧ ((0 <= acc)%Z -> (0 <= z)%Z).
Proof.
  induction s as [|c s IH]; intros acc n z n' s'; simpl.
  - intros [= <- <- <-]. auto.
  - destruct (is_digit c); [|intros [= <- <- <-]; auto].
    intros E. apply IH in E as [Hn Hz]. split; [lia|].
    intros Hacc. apply Hz. unfold Parse.digit_val. lia.
Qed.

Lemma Q2Qc_nonneg q : (0 <= q)%Q -> (0 <= Q2Qc q)%Qc.
Proof.
  intros Hq. unfold Qcle. simpl. by rewrite !Qred_correct.
Qed.

Lemma num_of_Z_amount z : (0 <= z)%Z -> is_amount (Some (num_of_Z z)).
Proof.
  intros Hz. eexists. split; [reflexivity|]. apply Q2Qc_nonneg.
  unfold Qle. simpl. lia.
Qed.

(** Text that starts with a digit parses as a non-negative number. *)
Lemma parseInt_amount c s :
  is_digit c = true -> is_amount (Some (Parse.parseInt (c :: s))).
Proof.
  intros Hc. unfold Parse.parseInt. simpl. rewrite Hc.
  destruct (Parse.digits _ 1 s) as [[z n] s'] eqn:E.
  apply digits_spec in E as [Hn Hz]. destruct n as [|n]; [lia|].
  apply num_of_Z_amount, Hz. unfold Parse.digit_val. lia.
Qed.

Lemma parseFloat_amount c s :
  is_digit c = true -> is_amount (Some (Parse.parseFloat (c :: s))).
Proof.
  intros Hc. unfold Parse.parseFloat. simpl. rewrite Hc.
  destruct (Parse.digits _ 1 s) as [[z n] s'] eqn:E.
  apply digits_spec in E as [Hn Hz]. destruct n as [|n]; [lia|].
  assert (0 <= z)%Z by (apply Hz; unfold Parse.digit_val; lia).
  destruct s' as [|d s']; [by apply num_of_Z_amount|].
  destruct (d =? 46)%N; [|by apply num_of_Z_amount].
  destruct (Parse.digits z 0 s') as [[m k] s''] eqn:E'.
  apply digits_spec in E' as [_ Hm].
  eexists. split; [reflexivity|]. apply Q2Qc_nonneg.
  unfold Qle. simpl. specialize (Hm ltac:(done)). lia.
Qed.

(** A word of [\d+...] starts with a digit. *)
Lemma plus_digit_head icase w :
  lang icase (Plus [Digit]) w -> ∃ c s, w = c :: s ∧ is_digit c = true.
Proof.
  intros [Hlen Hall]. destruct w as [|c s]; [simpl in Hlen; lia|].
  exists c, s. split; [done|]. simpl in Hall.
  apply andb_prop in Hall as [Hc _].
  destruct icase; [by apply icase_digit|].
  unfold cls_match in Hc. simpl in Hc. by rewrite !orb_false_r in Hc.
Qed.

Lemma decimal_head icase w :
  lang icase Patterns.decimal w -> ∃ c s, w = c :: s ∧ is_digit c = true.
Proof.
  intros (w12 & w3 & -> & (w1 & w2 & -> & H1 & _) & _).
  apply plus_digit_head in H1 as (c & s & -> & Hc).
  exists c, (s ++ w2 ++ w3). split; [|done]. simpl. by rewrite <- app_assoc.
Qed.

(** X21: for every text the extractor returns a total amount that is a
    number and not negative: never null, never NaN, never text. *)
Theorem total_amount_is_a_number text :
  ∃ d, extractBillingData text = Some d ∧ is_amount (d !! "totalAmount").
Proof.
  destruct (extract_fields text) as (d & Hd & _ & _ & _ & Ht & _).
  exists d. split; [done|]. rewrite Ht.
  destruct (exec true Patterns.amountPattern text) as [m|] eqn:E;
    [|by apply num_of_Z_amount].
  apply search_match in E as [_ Hg].
  specialize (Hg 1 eq_refl). pick_group Hg.
  apply decimal_head in Hg as (c & s & -> & Hc). by apply parseFloat_amount.
Qed.

Lemma extract_items text :
  ∃ d items,
    extractBillingData text = Some d
    ∧ items_loop (S (length text)) text 0 [] = Some items
    ∧ d !! "items" = Some (VArr items).
Proof.
  unfold extractBillingData.
  destruct (items_loop_total text (S (length text)) 0 []) as [items ->];
    [lia..|].
  eexists _, items. split; [reflexivity|]. split; [done|].
  apply lookup_insert_eq.
Qed.

Lemma items_loop_all (P : value -> Prop) text :
  (∀ from m,
      exec_from false Patterns.itemPattern from text = Some m ->
      P (item_of_match m)) ->
  ∀ fuel lastIndex acc items,
    items_loop fuel text lastIndex acc = Some items ->
    Forall P acc -> Forall P items.
Proof.
  intros Hitem. induction fuel as [|fuel IH]; intros lastIndex acc items;
    simpl; [done|].
  destruct (exec_from false Patterns.itemPattern lastIndex text)
    as [m|] eqn:E.
  - intros Hloop Hacc. apply (IH _ _ _ Hloop).
    apply Forall_app. split; [done|]. apply Forall_singleton. eauto.
  - by intros [= <-].
Qed.

(** X22: every line item the extractor returns has a description and a
    quantity, unit price and total price that are numbers and not
    negative (never NaN). *)
Theorem items_are_line_items text :
  ∃ d items, extractBillingData text = Some d
    ∧ d !! "items" = Some (VArr items)
    ∧ Forall is_line_item items.
Proof.
  destruct (extract_items text) as (d & items & Hd & Hloop & Hitems).
  exists d, items. split_and!; [done..|].
  apply (items_loop_all is_line_item text) in Hloop; [done| |done].
  intros from m Hm.
  pose proof (exec_from_match _ _ _ _ _ Hm) as Hg.
  pose proof (Hg 2 eq_refl) as H2. pose proof (Hg 3 eq_refl) as H3.
  pose proof (Hg 4 eq_refl) as H4. clear Hg.
  pick_group H2. pick_group H3. pick_group H4.
  apply plus_digit_head in H2 as (c2 & s2 & E2 & Hc2).
  apply decimal_head in H3 as (c3 & s3 & E3 & Hc3).
  apply decimal_head in H4 as (c4 & s4 & E4 & Hc4).
  unfold item_of_match, is_line_item. rewrite E2, E3, E4.
  eexists _, _. split; [reflexivity|].
  split_and!; simplify_map_eq;
    auto using parseInt_amount, parseFloat_amount.
Qed.

Lemma invoice_class c :
  cls_match true [Range (Patterns.ch "a") (Patterns.ch "z");
                  Range (Patterns.ch "0") (Patterns.ch "9");
                  Lit (Patterns.ch "-")] c = true ->
  invoice_char c = true.
Proof.
  unfold cls_match, invoice_char.
  change (Patterns.ch "a") with 97%N. change (Patterns.ch "z") with 122%N.
  change (Patterns.ch "0") with 48%N. change (Patterns.ch "9") with 57%N.
  change (Patterns.ch "-") with 45%N.
  cbn [existsb atom_match andb]. rewrite orb_false_r.
  unfold to_upper, to_lower, is_lower, is_upper, is_digit, between.
  rewrite (N.eqb_sym c 45).
  destruct (N.leb_spec 97 c), (N.leb_spec c 122),
           (N.leb_spec 65 c), (N.leb_spec c 90),
           (N.leb_spec 48 c), (N.leb_spec c 57), (N.eqb_spec 45 c);
    cbn [andb orb]; try done; try lia;
    intros Hc; exfalso; bools; lia.
Qed.

(** X23: the invoice number the extractor returns consists of ASCII
    letters, digits and hyphens only (and is empty when the pattern
    finds nothing). *)
Theorem invoice_number_characters text :
  ∃ d number, extractBillingData text = Some d
    ∧ d !! "invoiceNumber" = Some (VStr number)
    ∧ forallb invoice_char number = true.
Proof.
  destruct (extract_fields text) as (d & Hd & Hi & _).
  eexists d, _. split_and!; [done..|].
  destruct (exec true Patterns.invoicePattern text) as [m|] eqn:E; [|done].
  apply search_match in E as [_ Hg].
  specialize (Hg 1 eq_refl). pick_group Hg.
  destruct Hg as [_ Hall]. apply forallb_forall. intros c Hc.
  eapply forallb_forall in Hall; [|exact Hc]. by apply invoice_class.
Qed.

Lemma date_digits u :
  forallb (cls_match false [Digit]) u = true -> forallb date_char u = true.
Proof.
  intros Hu. apply forallb_forall. intros c Hc.
  eapply forallb_forall in Hu; [|exact Hc].
  unfold cls_match in Hu. simpl in Hu. rewrite !orb_false_r in Hu.
  unfold date_char. by rewrite Hu.
Qed.

Lemma date_sep c :
  cls_match false Patterns.dateSep c = true -> date_char c = true.
Proof.
  unfold cls_match, Patterns.dateSep, date_char.
  change (Patterns.ch "/") with 47%N. change (Patterns.ch "-") with 45%N.
  cbn [existsb atom_match andb]. rewrite !orb_false_r.
  rewrite (N.eqb_sym 47 c), (N.eqb_sym 45 c). intros Hc.
  apply orb_prop in Hc as [-> | ->]; by rewrite ?orb_true_r.
Qed.

Lemma date_lang w :
  lang false Patterns.datePattern w ->
  6 ≤ length w ∧ forallb date_char w = true.
Proof.
  unfold Patterns.datePattern, Rep. cbn [lang].
  intros [Hw|Hw];
    destruct Hw as (w1234 & w5 & -> & (w123 & w4 & -> & (w12 & w3 & ->
      & (w1 & w2 & -> & [L1 D1] & (c2 & -> & S2)) & [L3 D3])
      & (c4 & -> & S4)) & [L5 D5]);
    rewrite !length_app, !forallb_app; simpl;
    rewrite (date_digits _ D1), (date_digits _ D3), (date_digits _ D5),
      (date_sep _ S2), (date_sep _ S4); (split; [lia|done]).
Qed.

(** X24: the date the extractor returns is taken verbatim from the
    text: it is a substring of the text, and when it is not empty it
    has at least six code units, all digits, slashes or hyphens. *)
Theorem date_is_verbatim text :
  ∃ d date, extractBillingData text = Some d
    ∧ d !! "date" = Some (VStr date)
    ∧ (∃ pre post, text = pre ++ date ++ post)
    ∧ (date = [] ∨ (6 ≤ length date ∧ forallb date_char date = true)).
Proof.
  destruct (extract_fields text) as (d & Hd & _ & Hdt & _).
  eexists d, _. split_and!; [done..| |].
  - destruct (exec false Patterns.datePattern text) as [m|] eqn:E.
    + apply search_match in E as [(pre & post & ? & _) _]. eauto.
    + by exists [], text.
  - destruct (exec false Patterns.datePattern text) as [m|] eqn:E;
      [|by left].
    apply search_match in E as [(pre & post & _ & Hl) _].
    right. by apply date_lang.
Qed.

End ExtractProperties.

(** ** Lines and trimming *)

Module LineProperties.
Import Chars Spec ExtractFacts.

Lemma trim_start_suffix s :
  ∃ pre, s = pre ++ trim_start s ∧ forallb is_space pre = true.
Proof.
  induction s as [|c s (pre & Hs & Hpre)]; simpl; [by exists []|].
  destruct (is_space c) eqn:Hc; [|by exists []].
  exists (c :: pre). simpl. rewrite Hc, Hpre. by rewrite <- Hs.
Qed.

Lemma trim_start_head s c t :
  trim_start s = c :: t -> is_space c = false.
Proof.
  induction s as [|x s IH]; simpl; [done|].
  destruct (is_space x) eqn:Hx; [done|]. by intros [= <- _].
Qed.

(** A trimmed string is a piece of the string it comes from, and
    neither its first nor its last code unit is white space. *)
Lemma trim_spec s :
  (∃ pre post, s = pre ++ trim s ++ post)
  ∧ (∀ c t, trim s = c :: t -> is_space c = false)
  ∧ (∀ t c, trim s = t ++ [c] -> is_space c = false).
Proof.
  unfold trim.
  destruct (trim_start_suffix s) as (pre & Hs & _).
  destruct (trim_start_suffix (List.rev (trim_start s))) as (post & Hr & _).
  set (y := trim_start (List.rev (trim_start s))) in *.
  assert (Hx : trim_start s = List.rev y ++ List.rev post).
  { rewrite <- rev_app_distr, <- Hr. by rewrite rev_involutive. }
  split_and!.
  - exists pre, (List.rev post). by rewrite <- Hx.
  - intros c t Hc. rewrite Hc in Hx. by apply trim_start_head in Hx.
  - intros t c Hc. apply (f_equal (@List.rev N)) in Hc.
    rewrite rev_involutive, rev_app_distr in Hc. simpl in Hc.
    by apply trim_start_head in Hc.
Qed.

(** No line of a split contains the separator. *)
Lemma split_on_lines sep s line :
  line ∈ split_on sep s -> sep ∉ line.
Proof.
  revert line. induction s as [|c s IH]; intros line; simpl.
  - intros Hl. apply list_elem_of_singleton in Hl. subst.
    apply not_elem_of_nil.
  - destruct (c =? sep)%N eqn:Hc.
    + intros Hl. apply elem_of_cons in Hl as [->|Hl];
        [apply not_elem_of_nil|by apply IH].
    + apply N.eqb_neq in Hc.
      destruct (split_on sep s) as [|l ls] eqn:E.
      * intros Hl. apply list_elem_of_singleton in Hl. subst.
        intros Hin. apply list_elem_of_singleton in Hin. by subst.
      * intros Hl. apply elem_of_cons in Hl as [->|Hl].
        -- intros Hin. apply elem_of_cons in Hin as [->|Hin]; [done|].
           by apply (IH l); [left|].
        -- apply IH. by right.
Qed.

(** X25: the vendor the extractor returns is either empty or a line of
    the text with the surrounding white space removed: it is longer than
    three code units, contains no line feed, and neither starts nor ends
    with white space. *)
Theorem vendor_is_trimmed_line text :
  ∃ d vendor, extractBillingData text = Some d
    ∧ d !! "vendor" = Some (VStr vendor)
    ∧ (vendor = []
       ∨ ((∃ line, line ∈ split_on LF text ∧ vendor = trim line)
          ∧ (3 < length vendor)
          ∧ (LF ∉ vendor)
          ∧ (∀ c t, vendor = c :: t -> is_space c = false)
          ∧ (∀ t c, vendor = t ++ [c] -> is_space c = false))).
Proof.
  destruct (extract_fields text) as (d & Hd & _ & _ & _ & _ & Hv).
  eexists d, _. split_and!; [done..|].
  rewrite ExtractClaims.first_meaningful.
  destruct (List.find meaningful_line (List.map trim (split_on LF text)))
    as [vendor|] eqn:E; [|by left].
  right. simpl. apply find_some in E as [Hin Hm].
  apply in_map_iff in Hin as (line & <- & Hline).
  apply list_elem_of_In in Hline.
  destruct (trim_spec line) as ((pre & post & Hpiece) & Hhd & Hlast).
  split_and!; [by exists line| | |done|done].
  - unfold meaningful_line in Hm.
    apply andb_prop in Hm as [Hm _]. apply andb_prop in Hm as [Hm _].
    by apply Nat.ltb_lt in Hm.
  - intros Hlf. apply (split_on_lines LF text line Hline).
    rewrite Hpiece. rewrite !elem_of_app. auto.
Qed.

End LineProperties.

(** ** The list of records and the upload filter *)

Section ListAndFilter.
Context `{Platform}.
Import Regex.

(** X26: the list of records has one entry per stored record, in
    order; an entry copies the nine listed fields of its record, always
    has [items], and has no other property (so neither the raw text nor
    the image path is listed). *)
Theorem listed_records w :
  ∃ entries,
    getRecords w = Json 200 (VArr entries)
    ∧ length entries = length (billingRecords w)
    ∧ ∀ i record, billingRecords w !! i = Some record ->
        ∃ o, entries !! i = Some (VObj o)
          ∧ (∀ k, k ∈ listed_keys -> o !! k = record !! k)
          ∧ o !! "items" = Some (or_else (record !! "items") (VArr []))
          ∧ (∀ k, k ∉ "items" :: listed_keys -> o !! k = None).
Proof.
  eexists. split; [reflexivity|]. split; [apply length_map|].
  intros i record Hr. exists (listed record). split_and!.
  - change (List.map ?f ?l) with (f <$> l).
    by rewrite list_lookup_fmap, Hr.
  - intros k Hk. unfold listed.
    assert (k ≠ "items").
    { intros ->. unfold listed_keys in Hk.
      rewrite !elem_of_cons, elem_of_nil in Hk. intuition discriminate. }
    rewrite lookup_insert_ne by done.
    destruct (record !! k) as [v|] eqn:E.
    + by apply map_lookup_filter_Some.
    + apply map_lookup_filter_None. by left.
  - apply lookup_insert_eq.
  - intros k Hk. apply not_elem_of_cons in Hk as [Hk1 Hk2].
    unfold listed. rewrite lookup_insert_ne by done.
    apply map_lookup_filter_None. right. by intros v _.
Qed.

Lemma run_word u : ∀ st,
  run false (Word u) st
  = if starts_with u (rest st)
    then [MState (pos st + length u) (skipn (length u) (rest st)) (caps st)]
    else [].
Proof.
  induction u as [|c u IH]; intros [p s cs]; simpl.
  - by rewrite Nat.add_0_r.
  - destruct s as [|x s]; [done|]. unfold cls_match. simpl.
    rewrite !orb_false_r. destruct (c =? x)%N; simpl; [|done].
    rewrite IH, app_nil_r. simpl. destruct (starts_with u s); [|done].
    do 2 f_equal. lia.
Qed.

Lemma run_allowed p s :
  run false allowedTypes (MState p s []) ≠ []
  ↔ existsb (fun u => starts_with u s) allowed_words = true.
Proof.
  unfold allowedTypes, allowed_words.
  cbn [run existsb]. rewrite !run_word. cbn [rest].
  destruct (starts_with (js "jpeg") s), (starts_with (js "jpg") s),
           (starts_with (js "png") s), (starts_with (js "webp") s),
           (starts_with (js "bmp") s), (starts_with (js "tiff") s);
    simpl; split; done.
Qed.

Lemma existsb_contains s c :
  existsb (fun u => contains u (c :: s)) allowed_words
  = existsb (fun u => starts_with u (c :: s)) allowed_words
    || existsb (fun u => contains u s) allowed_words.
Proof.
  unfold allowed_words. cbn [existsb contains].
  destruct (starts_with (js "jpeg") (c :: s)),
           (starts_with (js "jpg") (c :: s)),
           (starts_with (js "png") (c :: s)),
           (starts_with (js "webp") (c :: s)),
           (starts_with (js "bmp") (c :: s)),
           (starts_with (js "tiff") (c :: s));
    cbn [orb]; rewrite ?orb_false_r, ?orb_true_r; try done;
    by rewrite ?orb_assoc.
Qed.

Lemma search_allowed : ∀ s p,
  is_Some (search false allowedTypes p s)
  ↔ existsb (fun u => contains u s) allowed_words = true.
Proof.
  induction s as [|c s IH]; intros p.
  - cbn [search]. pose proof (run_allowed p []) as Hr.
    destruct (run false allowedTypes (MState p [] [])) as [|st l].
    + split; [by intros [? [=]]|]. intros Hc. exfalso.
      assert (E : existsb (fun u => starts_with u []) allowed_words = true).
      { revert Hc. unfold allowed_words. cbn [existsb contains].
        by rewrite !orb_false_r. }
      apply Hr in E. done.
    + by vm_compute in Hr; destruct Hr as [Hr _]; specialize (Hr ltac:(done)).
  - cbn [search]. pose proof (run_allowed p (c :: s)) as Hr.
    rewrite existsb_contains.
    destruct (run false allowedTypes (MState p (c :: s) [])) as [|st l].
    + rewrite IH. split.
      * intros ->. apply orb_true_r.
      * intros Hc. apply orb_prop in Hc as [Hc|Hc]; [|done].
        apply Hr in Hc. done.
    + destruct Hr as [Hr _]. rewrite Hr by done. split; [done|eauto].
Qed.

(** [contains] is the substring relation. *)
Lemma contains_spec u : ∀ s,
  contains u s = true ↔ ∃ a b, s = a ++ u ++ b.
Proof.
  induction s as [|c s IH]; simpl.
  - rewrite orb_false_r. split.
    + intros Hs. destruct u; [|done]. by exists [], [].
    + intros (a & b & E). symmetry in E.
      apply app_eq_nil in E as [-> E]. by apply app_eq_nil in E as [-> _].
  - split.
    + intros Hs. apply orb_prop in Hs as [Hs|Hs].
      * exists [], (skipn (length u) (c :: s)). simpl.
        revert Hs. generalize (c :: s). clear.
        induction u as [|a u IHu]; intros [|b t]; simpl; try done.
        intros Hs. apply andb_prop in Hs as [Hab Hs].
        apply N.eqb_eq in Hab. subst. f_equal. by apply IHu.
      * apply IH in Hs as (a & b & ->). by exists (c :: a), b.
    + intros (a & b & E). destruct a as [|x a]; simpl in E.
      * apply orb_true_intro. left. rewrite E. clear.
        induction u as [|a u IHu]; simpl; [done|].
        by rewrite N.eqb_refl, IHu.
      * injection E as <- ->. apply orb_true_intro. right.
        apply IH. eauto.
Qed.

(** X27: the upload filter accepts a file exactly when one of the words
    jpeg, jpg, png, webp, bmp, tiff occurs somewhere in its MIME type
    and one of them occurs somewhere in its lower-cased extension; the
    pattern is not anchored, so the word need not be the whole
    extension or subtype. *)
Theorem fileFilter_accepts toLowerCase originalname mimetype :
  fileFilter toLowerCase originalname mimetype = true
  ↔ (∃ u a b, u ∈ allowed_words ∧ mimetype = a ++ u ++ b)
    ∧ (∃ u a b, u ∈ allowed_words
                ∧ toLowerCase (extname originalname) = a ++ u ++ b).
Proof.
  assert (Htest : ∀ s,
    test false allowedTypes s = true
    ↔ ∃ u a b, u ∈ allowed_words ∧ s = a ++ u ++ b).
  { intros s. unfold test, exec.
    rewrite bool_decide_eq_true, search_allowed, existsb_exists.
    split.
    - intros (u & Hu & Hc). apply contains_spec in Hc as (a & b & ->).
      exists u, a, b. split; [by apply list_elem_of_In|done].
    - intros (u & a & b & Hu & ->). exists u.
      split; [by apply list_elem_of_In|]. apply contains_spec. eauto. }
  unfold fileFilter. rewrite andb_true_iff, !Htest. done.
Qed.

End ListAndFilter.

(** ** Further concrete runs *)

Lemma empty_world_fresh id :
  Forall (fun r => has_id id r = false) (billingRecords empty_world).
Proof. constructor. Qed.

Lemma plain_record_completed : has_status "completed" plain_record = true.
Proof.
  unfold has_status, field_is, plain_record.
  rewrite lookup_insert_ne by done. rewrite lookup_insert_eq.
  by apply bool_decide_eq_true.
Qed.


Lemma broken_record_completed : has_status "completed" broken_record = true.
Proof.
  unfold has_status, field_is, broken_record.
  rewrite lookup_insert_ne by done. rewrite lookup_singleton_eq.
  by apply bool_decide_eq_true.
Qed.

Lemma output_of_sample :
  @outputPath sample_platform (path sample_file)
  = js "/srv/uploads/7-bill_processed.png".
Proof. by vm_compute. Qed.

Lemma uploaded_record_resolves_witness :
  Forall (fun r => has_id sample_id r = false) (billingRecords empty_world)
  ∧ getRecord sample_id uploaded_world = Json 200 (VObj uploaded_record).
Proof.
  split; [apply empty_world_fresh|].
  exact (uploaded_record_resolves empty_world sample_file sample_id
           upload_time (empty_world_fresh sample_id)).
Defined.


Lemma put_body_wins_witness :
  findIndex (has_id sample_id) (billingRecords uploaded_world) = Some 0
  ∧ billingRecords uploaded_world !! 0 = Some uploaded_record
  ∧ ∃ r', billingRecords
            (putRecord sample_id vendor_body edit_time uploaded_world).2 !! 0
          = Some r'
      ∧ r' !! "vendor" = Some (VStr (js "ACME Corp")).
Proof.
  split_and!; [apply uploaded_world_finds|reflexivity|].
  destruct (put_body_wins sample_id vendor_body edit_time uploaded_world 0
              uploaded_record uploaded_world_finds eq_refl)
    as (r' & _ & Hr' & _ & Hbody).
  exists r'. split; [exact Hr'|].
  apply Hbody; [done|]. apply lookup_singleton_eq.
Defined.

Lemma upload_is_a_step allowed :
  rtc (@step sample_platform allowed) empty_world uploaded_world.
Proof. eapply rtc_l; [|apply rtc_refl]. apply step_upload. Qed.

Lemma records_never_removed_witness :
  rtc (@step sample_platform Spec.any_body) empty_world uploaded_world
  ∧ length (billingRecords empty_world) ≤ length (billingRecords uploaded_world).
Proof.
  split; [apply upload_is_a_step|].
  exact (proj1 (@records_never_removed sample_platform Spec.any_body
                  empty_world uploaded_world (upload_is_a_step _))).
Defined.



Lemma status_always_known_witness :
  @reachable sample_platform keeps_status uploaded_world
  ∧ uploaded_record ∈ billingRecords uploaded_world
  ∧ known_status uploaded_record.
Proof.
  assert (Hin : uploaded_record ∈ billingRecords uploaded_world).
  { apply (list_elem_of_lookup_2 _ 0). reflexivity. }
  split_and!; [apply uploaded_world_reachable|exact Hin|].
  exact (@status_always_known sample_platform uploaded_world uploaded_record
           (uploaded_world_reachable _) Hin).
Defined.


Lemma sample_original_differs :
  path sample_file ≠ @outputPath sample_platform (path sample_file).
Proof. rewrite output_of_sample. by vm_compute. Qed.

Lemma run_touches_only_intermediate_witness :
  path sample_file ≠ @outputPath sample_platform (path sample_file)
  ∧ (path sample_file
       ∈ files (@processImageAsync sample_platform ocr_failure sample_id
                  (path sample_file) stored_world).2
     ↔ path sample_file ∈ files stored_world).
Proof.
  split; [apply sample_original_differs|].
  exact (@run_touches_only_intermediate sample_platform ocr_failure sample_id
           (path sample_file) stored_world (path sample_file)
           sample_original_differs).
Defined.

Lemma sample_extension_occurs :
  contains (@extname sample_platform (path sample_file)) (path sample_file)
  = true.
Proof. by vm_compute. Qed.

Lemma sample_extension_differs :
  @extname sample_platform (path sample_file) ≠ js "_processed.png".
Proof. by vm_compute. Qed.

Lemma sample_original_stored : path sample_file ∈ files stored_world.
Proof. unfold stored_world. cbn [files]. by apply elem_of_singleton_2. Qed.

Lemma original_survives_run_witness :
  contains (@extname sample_platform (path sample_file)) (path sample_file)
  = true
  ∧ @extname sample_platform (path sample_file) ≠ js "_processed.png"
  ∧ path sample_file ∈ files stored_world
  ∧ path sample_file
      ∈ files (@processImageAsync sample_platform ocr_success sample_id
                 (path sample_file) stored_world).2.
Proof.
  split_and!; [apply sample_extension_occurs|apply sample_extension_differs
              |apply sample_original_stored|].
  exact (proj2 (@original_survives_run sample_platform ocr_success sample_id
                  (path sample_file) stored_world sample_extension_occurs
                  sample_extension_differs sample_original_stored)).
Defined.

Lemma successful_run_completes_witness :
  Forall (fun r => has_id sample_id r = false) (billingRecords empty_world)
  ∧ ∃ r, billingRecords
           (@processImageAsync sample_platform ocr_success sample_id
              (path sample_file) uploaded_world).2 = [r]
      ∧ r !! "status" = Some (VStr (js "completed")).
Proof.
  split; [apply empty_world_fresh|].
  destruct (@successful_run_completes sample_platform empty_world sample_file
              sample_id upload_time sample_invoice (Q2Qc 91)
              (js "2024-03-01T10:00:09.000Z") (js "2024-03-01T10:00:08.000Z")
              (empty_world_fresh sample_id))
    as (d & r & _ & _ & Hrecs & Hstatus & _).
  exists r. split; [exact Hrecs|exact Hstatus].
Defined.

Lemma failed_cleanup_marks_error_witness :
  Forall (fun r => has_id sample_id r = false) (billingRecords empty_world)
  ∧ ∃ r, billingRecords
           (@processImageAsync sample_platform
              (RunEnv SharpOk (OcrOk sample_invoice (Q2Qc 91)) true
                      (js "2024-03-01T10:00:09.000Z")
                      (js "2024-03-01T10:00:08.000Z"))
              sample_id (path sample_file) uploaded_world).2 = [r]
      ∧ r !! "status" = Some (VStr (js "error")).
Proof.
  split; [apply empty_world_fresh|].
  destruct (@failed_cleanup_marks_error sample_platform empty_world
              sample_file sample_id upload_time sample_invoice (Q2Qc 91)
              (js "2024-03-01T10:00:09.000Z") (js "2024-03-01T10:00:08.000Z")
              (empty_world_fresh sample_id))
    as (r & _ & Hrecs & Hstatus & _).
  exists r. split; [exact Hrecs|exact Hstatus].
Defined.



Lemma exported_world_completed :
  List.filter (has_status "completed") (billingRecords exported_world)
  = [plain_record].
Proof. simpl. by rewrite plain_record_completed. Qed.

Lemma exported_world_rows :
  @detailed_rows sample_platform
    (List.filter (has_status "completed") (billingRecords exported_world)) []
  = Some [no_items_row plain_record].
Proof.
  rewrite exported_world_completed. simpl. unfold record_rows.
  by rewrite plain_record_items.
Qed.

Lemma initial_record_fields imageId file now :
  let r := initial_record imageId file now in
  r !! "id" = Some (VStr imageId)
  ∧ r !! "imagePath" = Some (VStr (path file))
  ∧ r !! "status" = Some (VStr (js "processing"))
  ∧ r !! "extractedAt" = Some VNull
  ∧ r !! "invoiceNumber" = Some VNull
  ∧ r !! "vendor" = Some VNull
  ∧ r !! "date" = Some VNull
  ∧ r !! "totalAmount" = Some VNull
  ∧ r !! "currency" = Some (VStr (js "USD"))
  ∧ r !! "items" = Some (VArr [])
  ∧ r !! "confidence" = Some (num_of_Z 0)
  ∧ r !! "rawText" = Some VNull.
Proof. unfold initial_record. split_and!; by simplify_map_eq. Qed.

Lemma renamed_world_records : billingRecords renamed_world = [renamed_record].
Proof.
  unfold renamed_world, putRecord. rewrite uploaded_world_finds. reflexivity.
Qed.

Lemma renamed_record_id : renamed_record !! "id" = Some (VStr (js "id-2")).
Proof.
  unfold renamed_record, spread, renaming_body.
  rewrite lookup_insert_ne by done. apply lookup_union_Some_l.
  by rewrite lookup_singleton_eq.
Qed.

Lemma renamed_record_kept k :
  k ≠ "updatedAt" -> k ≠ "id" ->
  renamed_record !! k = uploaded_record !! k.
Proof.
  intros Hu Hi. unfold renamed_record, spread, renaming_body.
  rewrite lookup_insert_ne by done. apply lookup_union_r.
  by rewrite lookup_singleton_ne.
Qed.

(** C6, as stated, fails: the record of an upload is renamed by an
    update while its run is in flight; the OCR engine then fails, the
    run finds no record under its id, and the record stays
    "processing" with [extractedAt] null. *)
Lemma failed_run_misses_renamed_record :
  @reachable sample_platform Spec.any_body renamed_world
  ∧ billingRecords renamed_world = [renamed_record]
  ∧ renamed_record !! "imagePath" = Some (VStr (path sample_file))
  ∧ ocr_result ocr_failure = OcrThrows
  ∧ (@processImageAsync sample_platform ocr_failure sample_id
       (path sample_file) renamed_world).1 = Returned tt
  ∧ billingRecords
      (@processImageAsync sample_platform ocr_failure sample_id
         (path sample_file) renamed_world).2 = [renamed_record]
  ∧ renamed_record !! "status" = Some (VStr (js "processing"))
  ∧ renamed_record !! "extractedAt" = Some VNull.
Proof.
  pose proof (initial_record_fields sample_id sample_file upload_time)
    as (_ & Hpath & Hstatus & Hextracted & _).
  assert (Hfail : sharp_result ocr_failure ≠ SharpOk
                  ∨ ocr_result ocr_failure = OcrThrows) by (by right).
  destruct (@failure_run sample_platform ocr_failure sample_id
              (path sample_file) renamed_world Hfail) as (Hret & Hrecs & _).
  split_and!.
  - exists empty_world. split; [done|].
    eapply rtc_l;
      [apply (step_upload _ (Some sample_file) sample_id upload_time)|].
    eapply rtc_l; [|apply rtc_refl].
    by apply (step_put _ sample_id renaming_body edit_time).
  - apply renamed_world_records.
  - by rewrite renamed_record_kept.
  - reflexivity.
  - exact Hret.
  - rewrite Hrecs, renamed_world_records. unfold store_update.
    rewrite findIndex_absent; [done|].
    apply Forall_singleton. unfold has_id, field_is.
    rewrite renamed_record_id. by apply bool_decide_eq_false.
  - by rewrite renamed_record_kept.
  - by rewrite renamed_record_kept.
Qed.

Lemma failed_run_marks_stored_record_witness :
  (sharp_result ocr_failure ≠ SharpOk ∨ ocr_result ocr_failure = OcrThrows)
  ∧ billingRecords two_uploads_world !! 1 = Some second_record
  ∧ second_record !! "id" = Some (VStr second_id)
  ∧ (∀ j r0, j < 1 -> billingRecords two_uploads_world !! j = Some r0 ->
             r0 !! "id" ≠ Some (VStr second_id))
  ∧ (@processImageAsync sample_platform ocr_failure second_id
       (path sample_file) two_uploads_world).1 = Returned tt
  ∧ (∃ r', billingRecords
             (@processImageAsync sample_platform ocr_failure second_id
                (path sample_file) two_uploads_world).2 !! 1 = Some r'
       ∧ r' !! "status" = Some (VStr (js "error"))
       ∧ r' !! "extractedAt" = Some (VStr (failed_at ocr_failure))
       ∧ r' !! "invoiceNumber" = Some VNull
       ∧ r' !! "vendor" = Some VNull
       ∧ r' !! "date" = Some VNull
       ∧ r' !! "totalAmount" = Some VNull
       ∧ r' !! "currency" = Some (VStr (js "USD"))
       ∧ r' !! "items" = Some (VArr [])
       ∧ r' !! "confidence" = Some (num_of_Z 0)
       ∧ r' !! "rawText" = Some VNull)
  ∧ billingRecords
      (@processImageAsync sample_platform ocr_failure second_id
         (path sample_file) two_uploads_world).2 !! 0 = Some uploaded_record.
Proof.
  assert (Hfail : sharp_result ocr_failure ≠ SharpOk
                  ∨ ocr_result ocr_failure = OcrThrows) by (by right).
  pose proof (initial_record_fields second_id sample_file second_time)
    as (Hid & _ & _ & _ & Hinv & Hven & Hdate & Htot & Hcur & Hitems & Hconf
        & Hraw).
  assert (Hbefore : ∀ j r0, j < 1 ->
            billingRecords two_uploads_world !! j = Some r0 ->
            r0 !! "id" ≠ Some (VStr second_id)).
  { intros [|j] r0 Hj; [|lia]. intros [= <-].
    rewrite (proj1 (initial_record_fields sample_id sample_file upload_time)).
    by intros [=]. }
  destruct (@failed_run_marks_stored_record sample_platform ocr_failure
              second_id (path sample_file) two_uploads_world 1 second_record
              Hfail eq_refl Hid Hbefore)
    as (Hret & (r' & Hr' & Hs & He & Hframe) & _ & Hother & _).
  split_and!; [exact Hfail|reflexivity|exact Hid|exact Hbefore|exact Hret| |].
  - exists r'. split_and!; [exact Hr'|exact Hs|exact He|..];
      (rewrite Hframe by done); assumption.
  - by rewrite Hother.
Defined.

Lemma exported_world_summary :
  mapM (@summary_row sample_platform)
    (List.filter (has_status "completed") (billingRecords exported_world))
  = Some [plain_summary].
Proof.
  rewrite exported_world_completed. simpl. by rewrite plain_record_summary.
Qed.

Lemma summary_cells_never_blank_witness :
  @summary_row sample_platform plain_record = Some plain_summary
  ∧ ∃ v, cell "Vendor" plain_summary = Some v ∧ truthy (Some v) = true.
Proof.
  split; [apply plain_record_summary|].
  apply (proj1 (proj2 (@summary_cells_never_blank sample_platform plain_record
                         plain_summary plain_record_summary))).
  apply elem_of_cons; right; apply elem_of_cons; by left.
Defined.

Lemma export_downloads_witness :
  List.filter (has_status "completed") (billingRecords exported_world) ≠ []
  ∧ mapM (@summary_row sample_platform)
      (List.filter (has_status "completed") (billingRecords exported_world))
    = Some [plain_summary]
  ∧ @detailed_rows sample_platform
      (List.filter (has_status "completed") (billingRecords exported_world)) []
    = Some [no_items_row plain_record]
  ∧ write_throws export_at_noon = false
  ∧ download_fails export_at_noon = false
  ∧ @exportRecords sample_platform export_at_noon exported_world
    = (Download (@exportsDir sample_platform ++ js "/"
                 ++ export_filename export_at_noon)
                (export_filename export_at_noon),
       World [plain_record]
         ({[@exportsDir sample_platform ++ js "/"
            ++ export_filename export_at_noon]} ∪ ∅)
         [CallWriteFile [("Summary", [plain_summary]);
                         ("Line Items", [no_items_row plain_record])]
            (@exportsDir sample_platform ++ js "/"
             ++ export_filename export_at_noon)]).
Proof.
  assert (Hsome : List.filter (has_status "completed")
                    (billingRecords exported_world) ≠ [])
    by (by rewrite exported_world_completed).
  split_and!; [exact Hsome|apply exported_world_summary
              |apply exported_world_rows|reflexivity|reflexivity|].
  exact (proj1 (proj2 (@export_downloads sample_platform export_at_noon
                         exported_world)
                  [plain_summary] [no_items_row plain_record] Hsome
                  exported_world_summary exported_world_rows eq_refl eq_refl)).
Defined.

Lemma export_touches_only_its_workbook_witness :
  (@exportRecords sample_platform failed_download exported_world).1
  = Json 500 (error_body "Failed to download file")
  ∧ @exportsDir sample_platform ++ js "/" ++ export_filename failed_download
    ∈ files (@exportRecords sample_platform failed_download exported_world).2.
Proof.
  assert (Hanswer :
    (@exportRecords sample_platform failed_download exported_world).1
    = Json 500 (error_body "Failed to download file")).
  { apply (proj1 (proj2 (proj2 (proj2 (proj2
      (@export_touches_only_its_workbook sample_platform failed_download
         exported_world)))))).
    split_and!; [by rewrite exported_world_completed
                |by rewrite exported_world_summary
                |by rewrite exported_world_rows|reflexivity|reflexivity]. }
  split; [exact Hanswer|].
  exact (proj2 (proj2 (proj2 (proj2 (proj2
    (@export_touches_only_its_workbook sample_platform failed_download
       exported_world))))) Hanswer).
Defined.

Lemma null_item_fails_export_witness :
  broken_record ∈ [broken_record]
  ∧ has_status "completed" broken_record = true
  ∧ broken_record !! "items" = Some (VArr [VNull])
  ∧ VNull ∈ [VNull]
  ∧ @exportRecords sample_platform export_at_noon
      (World [broken_record] ∅ [])
    = (Json 500 (error_body "Failed to export data"),
       World [broken_record] ∅ []).
Proof.
  assert (Hin : broken_record ∈ billingRecords (World [broken_record] ∅ []))
    by (by apply list_elem_of_singleton).
  assert (Hitems : broken_record !! "items" = Some (VArr [VNull]))
    by apply lookup_insert_eq.
  assert (Hnull : VNull ∈ [VNull]) by (by apply list_elem_of_singleton).
  split_and!; [exact Hin|apply broken_record_completed|exact Hitems
              |exact Hnull|].
  exact (@null_item_fails_export sample_platform export_at_noon
           (World [broken_record] ∅ []) broken_record [VNull] Hin
           broken_record_completed Hitems Hnull).
Defined.
